(** * pomegranate: custom distributions and their sufficient statistics

    A shallow embedding of the Python classes of the "Custom Distributions"
    tutorial ([NormalDistribution2], [StudentTDistribution],
    [BlockGaussianDistribution]) together with the parts of the library
    that the tutorials only describe (discrete distributions, the EM loop,
    the data-parallel merge).

    Python objects are records; a method is a computation in a small
    state-and-exception monad over the record it is called on, so that a
    method which raises half way leaves the mutations it already made.
    Numbers are kept abstract behind the class [Num]: the instance
    [float_Num] is IEEE binary64 (what numpy runs on), the instance [R_Num]
    is exact real arithmetic (what "mathematically equivalent" speaks
    about). *)

From Stdlib Require Import PrimFloat Reals Lra.
From stdpp Require Import base option list vector gmap strings.

Set Warnings "-inexact-float".

(** ** Numbers *)

Class Num (A : Type) : Type := {
  num_zero : A;
  num_one : A;
  num_add : A → A → A;
  num_sub : A → A → A;
  num_mul : A → A → A;
  num_div : A → A → A;
  num_sqrt : A → A;
}.

Declare Scope num_scope.
Delimit Scope num_scope with num.
Infix "+" := num_add : num_scope.
Infix "-" := num_sub : num_scope.
Infix "*" := num_mul : num_scope.
Infix "/" := num_div : num_scope.

(** numpy's float64: the kernel's binary64 numbers. *)
#[global] Instance float_Num : Num float := {|
  num_zero := 0%float;
  num_one := 1%float;
  num_add := PrimFloat.add;
  num_sub := PrimFloat.sub;
  num_mul := PrimFloat.mul;
  num_div := PrimFloat.div;
  num_sqrt := PrimFloat.sqrt;
|}.

(** Exact arithmetic. *)
#[global] Instance R_Num : Num R := {|
  num_zero := 0%R;
  num_one := 1%R;
  num_add := Rplus;
  num_sub := Rminus;
  num_mul := Rmult;
  num_div := Rdiv;
  num_sqrt := R_sqrt.sqrt;
|}.

(** What additivity of the accumulators needs of addition: a monoid.
    Binary64 addition is not associative, so [float_Num] has no such
    instance. *)
Class NumLaws (A : Type) `{Num A} : Prop := {
  num_add_assoc : ∀ x y z : A, (x + (y + z))%num = ((x + y) + z)%num;
  num_add_0_l : ∀ x : A, (num_zero + x)%num = x;
  num_add_0_r : ∀ x : A, (x + num_zero)%num = x;
}.

#[global] Instance R_NumLaws : NumLaws R.
Proof. split; intros; simpl; lra. Qed.

(** ** Python methods: state and exceptions *)

(** [ValueError] and [IndexError] are what numpy raises on arrays of the
    wrong shape.  [InsufficientDataError] is the name the specification
    gives to finalising an empty accumulator; no method below raises it. *)
Inductive exn : Type := ValueError | IndexError | InsufficientDataError.

Inductive result (R : Type) : Type :=
| Val (r : R)
| Exc (e : exn).
Arguments Val {R} r.
Arguments Exc {R} e.

(** A method of an object of type [S] returning an [R]: from the object
    before the call to the returned value, or the exception raised, and the
    object after the call. *)
Definition M (S R : Type) : Type := S → result R * S.

#[global] Instance M_ret {S} : MRet (M S) := λ R r self, (Val r, self).
#[global] Instance M_bind {S} : MBind (M S) := λ R1 R2 k m self,
  match m self with
  | (Val r, self') => k r self'
  | (Exc e, self') => (Exc e, self')
  end.

Definition raise {S R} (e : exn) : M S R := λ self, (Exc e, self).
Definition gets {S R} (f : S → R) : M S R := λ self, (Val (f self), self).
Definition modify {S} (f : S → S) : M S () := λ self, (Val (), f self).

(** A value computed without touching the object; [None] is a numpy shape
    error. *)
Definition or_raise {S R} (e : exn) (o : option R) : M S R :=
  match o with Some r => mret r | None => raise e end.

(** The object a call leaves behind, whether it returned or raised. *)
Definition state_after {S R} (m : M S R) (self : S) : S := (m self).2.

(** Statements run one after the other on the same object. *)
Fixpoint sequence_ {S} (ms : list (M S ())) : M S () :=
  match ms with
  | [] => mret ()
  | m :: ms => m;; sequence_ ms
  end.

(** ** numpy arrays *)

(** An array of shape [(n,)] or [(n, d)]; a matrix is its list of rows. *)
Inductive ndarray (A : Type) : Type :=
| Vec (v : list A)
| Mat (rows : list (list A)).
Arguments Vec {A} v.
Arguments Mat {A} rows.

Section numpy.
Context {A : Type} `{Num A}.

(** [X.shape[0]] *)
Definition shape0 (X : ndarray A) : nat :=
  match X with Vec v => length v | Mat rows => length rows end.

(** [X.reshape(X.shape[0])]: a vector is returned as it is; an [(n, d)]
    matrix has [n * d] entries, which fit the shape [(n,)] when every row
    has one entry (or there is no row). *)
Definition reshape_shape0 (X : ndarray A) : option (list A) :=
  match X with
  | Vec v => Some v
  | Mat rows =>
      if forallb (λ row, Nat.eqb (length row) 1) rows
      then Some (concat rows) else None
  end.

(** [numpy.zeros(n)], [numpy.ones(n)] *)
Definition zeros (n : nat) : list A := replicate n num_zero.
Definition ones (n : nat) : list A := replicate n num_one.

(** [w.sum()], accumulated from the left.  numpy may add in another
    order, which over exact numbers is the same sum. *)
Definition np_sum (w : list A) : A := foldl num_add num_zero w.

(** [X.dot(w)] on two vectors; numpy refuses vectors of different
    lengths. *)
Definition np_dot (X w : list A) : option A :=
  if decide (length X = length w)
  then Some (np_sum (zip_with num_mul X w)) else None.

(** [X ** 2.] and [x ** 2]: numpy squares by one multiplication. *)
Definition square (x : A) : A := (x * x)%num.
Definition np_square (X : list A) : list A := square <$> X.

(** [X[:, i:j]] on the rows of a matrix: Python slices clip at the end. *)
Definition slice_cols (rows : list (list A)) (i j : nat) : list (list A) :=
  (λ row, take (j - i) (drop i row)) <$> rows.

(** [a += b] for a vector [a]: [b] has [a]'s shape, or is a vector of one
    entry, which numpy broadcasts; a matrix cannot be added into a vector. *)
Definition iadd (a : list A) (b : ndarray A) : option (list A) :=
  match b with
  | Vec v =>
      if decide (length v = length a) then Some (zip_with num_add a v)
      else match v with
           | [x] => Some ((λ y, y + x)%num <$> a)
           | _ => None
           end
  | Mat _ => None
  end.

(** A function of one number applied to every entry, as scipy's
    [logpdf] does. *)
Definition ndarray_map (f : A → A) (X : ndarray A) : ndarray A :=
  match X with
  | Vec v => Vec (fmap (M:=list) f v)
  | Mat rows => Mat (fmap (M:=list) (fmap (M:=list) f) rows)
  end.

End numpy.

(** ** NormalDistribution2 *)

Module NormalDistribution2.
Section defs.
Context {A : Type} `{Num A}.
(** [scipy.stats.norm.logpdf(x, loc, scale)] at one number. *)
Variable norm_logpdf : A → A → A → A.

Record t : Type := mk {
  mu : A;
  std : A;
  parameters : A * A;
  d : nat;
  summaries : vec A 3;
}.

Definition set_mu (x : A) (self : t) : t :=
  mk x (std self) (parameters self) (d self) (summaries self).
Definition set_std (x : A) (self : t) : t :=
  mk (mu self) x (parameters self) (d self) (summaries self).
Definition set_parameters (p : A * A) (self : t) : t :=
  mk (mu self) (std self) p (d self) (summaries self).
Definition set_summaries (s : vec A 3) (self : t) : t :=
  mk (mu self) (std self) (parameters self) (d self) s.

(** [self.summaries[i]] and [self.summaries[i] += x] *)
Definition summary (i : fin 3) : M t A := gets (λ self, summaries self !!! i).
Definition summaries_iadd (i : fin 3) (x : A) : M t () :=
  modify (λ self,
    set_summaries (vinsert i (summaries self !!! i + x)%num (summaries self)) self).

(** [__init__(self, mu, std)] *)
Definition init (mu std : A) : t :=
  mk mu std (mu, std) 1 (vreplicate 3 num_zero).

(** [log_probability(self, X)] reads [mu] and [std] and nothing else. *)
Definition log_probability (self : t) (X : ndarray A) : ndarray A :=
  ndarray_map (λ x, norm_logpdf x (mu self) (std self)) X.

(** [summarize(self, X, w=None)] *)
Definition summarize (X : ndarray A) (w : option (list A)) : M t () :=
  let w := default (ones (shape0 X)) w in
  X ← or_raise ValueError (reshape_shape0 X);
  summaries_iadd 0%fin (np_sum w);;
  xw ← or_raise ValueError (np_dot X w);
  summaries_iadd 1%fin xw;;
  x2w ← or_raise ValueError (np_dot (np_square X) w);
  summaries_iadd 2%fin x2w.

(** [clear_summaries(self, inertia=0.0)] *)
Definition clear_summaries (inertia : A) : M t () :=
  modify (set_summaries (vreplicate 3 num_zero)).

(** [from_summaries(self, inertia=0.0)]; the body never reads
    [inertia]. *)
Definition from_summaries (inertia : A) : M t () :=
  s0 ← summary 0%fin; s1 ← summary 1%fin;
  modify (set_mu (s1 / s0)%num);;
  s0 ← summary 0%fin; s1 ← summary 1%fin; s2 ← summary 2%fin;
  modify (set_std (s2 / s0 - square s1 / square s0)%num);;
  modify (λ self, set_std (num_sqrt (std self)) self);;
  modify (λ self, set_parameters (mu self, std self) self);;
  clear_summaries num_zero.

(** [blank(cls)] *)
Definition blank : t := init num_zero num_zero.

(** [from_samples(cls, X, weights=None)]: the new object and how the two
    calls on it ended. *)
Definition from_samples (X : ndarray A) (weights : option (list A)) : result () * t :=
  (summarize X weights;; from_summaries num_zero) (init num_zero num_zero).

End defs.
End NormalDistribution2.

(** ** StudentTDistribution *)

Module StudentTDistribution.
Section defs.
Context {A : Type} `{Num A}.
(** [scipy.stats.t.logpdf(x, df, loc, scale)] at one number. *)
Variable t_logpdf : A → A → A → A → A.

Record t : Type := mk {
  mu : A;
  std : A;
  df : A;
  parameters : A * A;
  d : nat;
  summaries : vec A 3;
}.

Definition set_mu (x : A) (self : t) : t :=
  mk x (std self) (df self) (parameters self) (d self) (summaries self).
Definition set_std (x : A) (self : t) : t :=
  mk (mu self) x (df self) (parameters self) (d self) (summaries self).
Definition set_parameters (p : A * A) (self : t) : t :=
  mk (mu self) (std self) (df self) p (d self) (summaries self).
Definition set_summaries (s : vec A 3) (self : t) : t :=
  mk (mu self) (std self) (df self) (parameters self) (d self) s.

Definition summary (i : fin 3) : M t A := gets (λ self, summaries self !!! i).
Definition summaries_iadd (i : fin 3) (x : A) : M t () :=
  modify (λ self,
    set_summaries (vinsert i (summaries self !!! i + x)%num (summaries self)) self).

(** [__init__(self, mu, std, df=1.0)] *)
Definition init (mu std df : A) : t :=
  mk mu std df (mu, std) 1 (vreplicate 3 num_zero).

(** [log_probability(self, X)] *)
Definition log_probability (self : t) (X : ndarray A) : ndarray A :=
  ndarray_map (λ x, t_logpdf x (df self) (mu self) (std self)) X.

(** [summarize(self, X, w=None)] *)
Definition summarize (X : ndarray A) (w : option (list A)) : M t () :=
  let w := default (ones (shape0 X)) w in
  X ← or_raise ValueError (reshape_shape0 X);
  summaries_iadd 0%fin (np_sum w);;
  xw ← or_raise ValueError (np_dot X w);
  summaries_iadd 1%fin xw;;
  x2w ← or_raise ValueError (np_dot (np_square X) w);
  summaries_iadd 2%fin x2w.

(** [clear_summaries(self, inertia=0.0)] *)
Definition clear_summaries (inertia : A) : M t () :=
  modify (set_summaries (vreplicate 3 num_zero)).

(** [from_summaries(self, inertia=0.0)]: the normal distribution's update
    of [mu] and [std]; [df] is not assigned, [inertia] is not read. *)
Definition from_summaries (inertia : A) : M t () :=
  s0 ← summary 0%fin; s1 ← summary 1%fin;
  modify (set_mu (s1 / s0)%num);;
  s0 ← summary 0%fin; s1 ← summary 1%fin; s2 ← summary 2%fin;
  modify (set_std (s2 / s0 - square s1 / square s0)%num);;
  modify (λ self, set_std (num_sqrt (std self)) self);;
  modify (λ self, set_parameters (mu self, std self) self);;
  clear_summaries num_zero.

(** [blank(cls)]: [df] takes its default. *)
Definition blank : t := init num_zero num_zero num_one.

(** [from_samples(cls, X, weights=None, df=1)] *)
Definition from_samples (X : ndarray A) (weights : option (list A)) (df : A)
  : result () * t :=
  (summarize X weights;; from_summaries num_zero) (init num_zero num_zero df).

End defs.
End StudentTDistribution.

(** ** The interface of a distribution

    What a compositional model asks of the objects it is given: the
    attribute [d] and the methods [log_probability], [summarize] and
    [from_summaries]. *)

#[global] Instance result_ret : MRet result := λ R r, Val r.
#[global] Instance result_bind : MBind result := λ R1 R2 k m,
  match m with Val r => k r | Exc e => Exc e end.
#[global] Instance result_fmap : FMap result := λ R1 R2 f m,
  match m with Val r => Val (f r) | Exc e => Exc e end.

Class Distribution (A D : Type) : Type := {
  dist_d : D → nat;
  dist_log_probability : D → ndarray A → result (ndarray A);
  dist_summarize : ndarray A → option (list A) → M D ();
  dist_from_summaries : A → M D ();
}.

#[global] Instance NormalDistribution2_Distribution {A} `{Num A}
    (norm_logpdf : A → A → A → A) : Distribution A (@NormalDistribution2.t A) := {|
  dist_d := NormalDistribution2.d;
  dist_log_probability self X :=
    Val (NormalDistribution2.log_probability norm_logpdf self X);
  dist_summarize := NormalDistribution2.summarize;
  dist_from_summaries := NormalDistribution2.from_summaries;
|}.

#[global] Instance StudentTDistribution_Distribution {A} `{Num A}
    (t_logpdf : A → A → A → A → A) : Distribution A (@StudentTDistribution.t A) := {|
  dist_d := StudentTDistribution.d;
  dist_log_probability self X :=
    Val (StudentTDistribution.log_probability t_logpdf self X);
  dist_summarize := StudentTDistribution.summarize;
  dist_from_summaries := StudentTDistribution.from_summaries;
|}.

(** The attribute [d] names the number of columns the object models; a
    distribution keeps it for life. *)
Class FixedDimension (A D : Type) `{Distribution A D} : Prop := {
  summarize_keeps_d : ∀ X w (self : D),
    dist_d (state_after (dist_summarize X w) self) = dist_d self;
  from_summaries_keeps_d : ∀ (inertia : A) (self : D),
    dist_d (state_after (dist_from_summaries inertia) self) = dist_d self;
}.

(** ** Loops over the objects of a list *)

(** [for x in xs: body] where [body] mutates [x] and updates the loop's own
    variable; an exception ends the loop and leaves the remaining objects
    as they were. *)
Fixpoint for_each {S I} (body : I → M S I) (i : I) (xs : list S) {struct xs}
  : result I * list S :=
  match xs with
  | [] => (Val i, [])
  | x :: rest =>
      match body i x with
      | (Val i', x') =>
          let '(r, rest') := for_each body i' rest in (r, x' :: rest')
      | (Exc e, x') => (Exc e, x' :: rest)
      end
  end.

(** ** BlockGaussianDistribution *)

Module BlockGaussianDistribution.
Section defs.
Context {A D : Type} `{Num A} `{Distribution A D}.

(** [distributions] is a Python list of objects; the objects of one block
    are taken to be distinct (a block owns its components).  The class
    methods [from_samples] and [blank] build the components with the
    library's [MultivariateGaussianDistribution.blank] and are left out. *)
Record t : Type := mk {
  distributions : list D;
  d : nat;
}.

(** [__init__(self, distributions)] *)
Definition init (distributions : list D) : t :=
  mk distributions (sum_list (dist_d <$> distributions)).

(** [X[:, i:j].copy()]; a vector has no second axis. *)
Definition columns (X : ndarray A) (i j : nat) : option (ndarray A) :=
  match X with
  | Vec _ => None
  | Mat rows => Some (Mat (slice_cols rows i j))
  end.

(** The loop of [log_probability], from column [i] and the sum so far. *)
Fixpoint log_probability_loop (ds : list D) (X : ndarray A) (i : nat)
    (log_probability : list A) : result (list A) :=
  match ds with
  | [] => Val log_probability
  | distribution :: ds =>
      match columns X i (i + dist_d distribution) with
      | None => Exc IndexError
      | Some Xi =>
          lp ← dist_log_probability distribution Xi;
          match iadd log_probability lp with
          | None => Exc ValueError
          | Some log_probability =>
              log_probability_loop ds X (i + dist_d distribution) log_probability
          end
      end
  end.

(** [log_probability(self, X)] *)
Definition log_probability (self : t) (X : ndarray A) : result (ndarray A) :=
  Vec <$> log_probability_loop (distributions self) X 0 (zeros (shape0 X)).

(** A method of [self.distributions] run on [self]. *)
Definition on_distributions {R} (m : list D → result R * list D) : M t R :=
  λ self, let '(r, ds) := m (distributions self) in (r, mk ds (d self)).

(** The body of the loop of [summarize], run on one component: its
    columns start at [i]; the value returned is the next [i]. *)
Definition summarize_body (X : ndarray A) (w : option (list A)) (i : nat)
  : M D nat :=
  n ← gets dist_d;
  Xi ← or_raise IndexError (columns X i (i + n));
  dist_summarize Xi w;;
  n ← gets dist_d;
  mret (i + n).

(** [summarize(self, X, w=None)] *)
Definition summarize (X : ndarray A) (w : option (list A)) : M t () :=
  on_distributions (for_each (summarize_body X w) 0);;
  mret ().

(** [from_summaries(self, inertia=0.0)] *)
Definition from_summaries (inertia : A) : M t () :=
  on_distributions (for_each (λ _ : (), dist_from_summaries inertia) ()).

End defs.
End BlockGaussianDistribution.

(** A block is a distribution too, and can be a component of a block. *)
#[global] Instance BlockGaussianDistribution_Distribution {A D} `{Num A}
    `{Distribution A D} : Distribution A (@BlockGaussianDistribution.t D) := {|
  dist_d := BlockGaussianDistribution.d;
  dist_log_probability := BlockGaussianDistribution.log_probability;
  dist_summarize := BlockGaussianDistribution.summarize;
  dist_from_summaries := BlockGaussianDistribution.from_summaries;
|}.

(** The column ranges [(i, j)] the loops of a block hand to its components:
    each starts where the one before ended. *)
Fixpoint slices_from {A D} `{Distribution A D} (i : nat) (ds : list D)
  : list (nat * nat) :=
  match ds with
  | [] => []
  | distribution :: ds =>
      (i, i + dist_d distribution) :: slices_from (i + dist_d distribution) ds
  end.
Definition slices {A D} `{Distribution A D} (ds : list D) : list (nat * nat) :=
  slices_from 0 ds.

(** ** Batches and their sufficient statistics *)

(** The sufficient statistics of weighted samples [(x, w)]: the sum of the
    weights, of the weighted points and of the weighted squared points. *)
Definition sufficient_statistics {A : Type} `{Num A} (b : list (A * A)) : vec A 3 :=
  [# np_sum b.*2;
     np_sum ((λ p, p.1 * p.2)%num <$> b);
     np_sum ((λ p, square p.1 * p.2)%num <$> b)].

(** Batches of weighted samples, summarized one call per batch. *)
Definition summarize_batches {A : Type} `{Num A} (batches : list (list (A * A)))
  : M NormalDistribution2.t () :=
  sequence_ ((λ b, NormalDistribution2.summarize (Vec b.*1) (Some b.*2)) <$> batches).

(** Batches of samples without weights, summarized one call per batch. *)
Definition summarize_unweighted_batches {A : Type} `{Num A} (batches : list (list A))
  : M NormalDistribution2.t () :=
  sequence_ ((λ X, NormalDistribution2.summarize (Vec X) None) <$> batches).

(** The same calls on a [StudentTDistribution]. *)
Definition student_summarize_batches {A : Type} `{Num A}
    (batches : list (list (A * A))) : M StudentTDistribution.t () :=
  sequence_ ((λ b, StudentTDistribution.summarize (Vec b.*1) (Some b.*2)) <$> batches).

(** ** What the documentation and the specification speak of *)

(** The update the documentation describes: a share [inertia] of the old
    parameter and the rest of the new estimate. *)
Definition blend {A : Type} `{Num A} (inertia old mle : A) : A :=
  (inertia * old + (num_one - inertia) * mle)%num.

(** Row by row, the sum of the components' log-probabilities, taken in the
    order of the components. *)
Definition sum_of_log_probabilities {A : Type} `{Num A} (n : nat)
    (lps : list (list A)) : list A :=
  (λ j, np_sum ((λ lp, default num_zero (lp !! j)) <$> lps)) <$> seq 0 n.

(** ** Densities *)

(** The density behind [scipy.stats.norm.logpdf], over the reals. *)
Definition R_norm_logpdf (x loc scale : R) : R :=
  (- ln (sqrt (2 * PI) * scale) - (x - loc) * (x - loc) / (2 * (scale * scale)))%R.

(** [scipy.stats.t.logpdf(x, df, loc, scale)] at [df = 1], the default
    [df] of [StudentTDistribution]: the Cauchy density.  [df] is not
    read. *)
Definition R_t1_logpdf (x df loc scale : R) : R :=
  (- ln PI - ln scale - ln (1 + (x - loc) / scale * ((x - loc) / scale)))%R.

(** The exponent of the normal density, for want of a logarithm in
    binary64. *)
Definition float_norm_exponent (x loc scale : float) : float :=
  (- ((x - loc) * (x - loc) / (2 * (scale * scale))))%float.

(** ** A component that answers with a vector *)

(** A univariate component as the tutorial gives them to a block: the
    library's distributions answer a column of shape [(n, 1)] with the
    vector [(n,)] of its log-probabilities, the ordered sequence a block
    adds up.  [NormalDistribution2.log_probability] answers a column with a
    column; here its input is reshaped first, as its [summarize] does. *)
Definition column_log_probability {A : Type} `{Num A} (norm_logpdf : A → A → A → A)
    (self : NormalDistribution2.t) (X : ndarray A) : result (ndarray A) :=
  match reshape_shape0 X with
  | Some x => Val (NormalDistribution2.log_probability norm_logpdf self (Vec x))
  | None => Exc ValueError
  end.

Definition ColumnNormal_Distribution {A : Type} `{Num A}
    (norm_logpdf : A → A → A → A) : Distribution A (@NormalDistribution2.t A) := {|
  dist_d := NormalDistribution2.d;
  dist_log_probability := column_log_probability norm_logpdf;
  dist_summarize := NormalDistribution2.summarize;
  dist_from_summaries := NormalDistribution2.from_summaries;
|}.

(** ** DiscreteDistribution *)

Module DiscreteDistribution.
Section defs.
Context {A : Type} `{Num A}.
(** [math.log] and [float('-inf')]. *)
Variable log : A → A.
Variable neg_inf : A.

(** Modelled from the spec: the library's [DiscreteDistribution], which the
    tutorials use and describe and whose code is not among them.  The
    object owns a map from symbols to indices and the array of the
    probabilities at those indices. *)
Record t : Type := mk {
  keymap : gmap string nat;
  dist : list A;
}.

(** Modelled from the spec: the constructor takes a dictionary from symbols
    to probabilities and numbers its keys. *)
Definition init (characters : gmap string A) : t :=
  let items := map_to_list characters in
  mk (list_to_map (imap (λ i (item : string * A), (item.1, i)) items)) items.*2.

(** Modelled from the spec: a symbol the map does not know has probability
    0; no exception is raised for it. *)
Definition probability (self : t) (symbol : string) : result A :=
  match keymap self !! symbol with
  | None => Val num_zero
  | Some i =>
      match dist self !! i with
      | Some p => Val p
      | None => Exc IndexError
      end
  end.

(** Modelled from the spec: the log-probability of such a symbol is minus
    infinity. *)
Definition log_probability (self : t) (symbol : string) : result A :=
  match keymap self !! symbol with
  | None => Val neg_inf
  | Some i =>
      match dist self !! i with
      | Some p => Val (log p)
      | None => Exc IndexError
      end
  end.

End defs.
End DiscreteDistribution.

(** ** Data-parallel summarize, merge and update *)

Module Parallel.
Section defs.
Context {Model Shard Acc Out : Type}.
(** What one worker does with its shard on its private clone of the model:
    the accumulator it hands back, and for [predict_proba] the rows it
    hands back. *)
Variable summarize_shard : Model → Shard → Acc.
Variable predict_shard : Model → Shard → list Out.
(** Elementwise addition of accumulators, and the serial update. *)
Variable acc_add : Acc → Acc → Acc.
Variable from_summaries : Acc → Model → Model.

(** Modelled from the spec: the data-parallel cycle of the library, which
    the tutorials call through [n_jobs] and whose code is not among them.
    The workers finish in some order of their own; [order] lists the shard
    indices as the results arrive, each with what its worker computed. *)
Definition arrivals {B} (job : Shard → B) (shards : list Shard) (order : list nat)
  : list (nat * B) :=
  omap (λ k, (λ shard, (k, job shard)) <$> shards !! k) order.

(** Modelled from the spec: behind the join barrier the results stand by
    shard index, not by arrival. *)
Definition by_shard_index {B} (n_jobs : nat) (arrived : list (nat * B)) : list B :=
  omap (λ k, (list_to_map arrived : gmap nat B) !! k) (seq 0 n_jobs).

(** Modelled from the spec: the accumulators are added into the model's in
    that order, then a single [from_summaries] runs. *)
Definition fit_step (acc : Acc) (model : Model) (shards : list Shard)
    (order : list nat) : Model :=
  from_summaries
    (foldl acc_add acc
       (by_shard_index (length shards)
          (arrivals (summarize_shard model) shards order)))
    model.

(** Modelled from the spec: [predict_proba] with [n_jobs] puts the rows of
    the shards one after the other. *)
Definition predict_proba (model : Model) (shards : list Shard) (order : list nat)
  : list Out :=
  concat (by_shard_index (length shards)
            (arrivals (predict_shard model) shards order)).

(** For comparison: accumulators added as they arrive. *)
Definition fit_step_by_arrival (acc : Acc) (model : Model) (shards : list Shard)
    (order : list nat) : Model :=
  from_summaries
    (foldl acc_add acc (arrivals (summarize_shard model) shards order).*2)
    model.

End defs.
End Parallel.

(** The cycle for one [NormalDistribution2]: a worker summarizes its shard
    of weighted samples on a clone with a cleared accumulator and hands the
    accumulator back; the sum of the accumulators is finalized on the
    model. *)
Definition normal2_summarize_shard {A : Type} `{Num A}
    (model : NormalDistribution2.t) (shard : list (A * A)) : vec A 3 :=
  NormalDistribution2.summaries
    (state_after (NormalDistribution2.summarize (Vec shard.*1) (Some shard.*2))
       (state_after (NormalDistribution2.clear_summaries num_zero) model)).

Definition normal2_predict_shard {A : Type} `{Num A} (norm_logpdf : A → A → A → A)
    (model : NormalDistribution2.t) (shard : list (A * A)) : list A :=
  match NormalDistribution2.log_probability norm_logpdf model (Vec shard.*1) with
  | Vec v => v
  | Mat _ => []
  end.

Definition normal2_finalize {A : Type} `{Num A} (acc : vec A 3)
    (model : NormalDistribution2.t) : NormalDistribution2.t :=
  state_after (NormalDistribution2.from_summaries num_zero)
    (NormalDistribution2.set_summaries acc model).

Definition three_shards : list (list (float * float)) :=
  [[(1%float, 0.1%float)]; [(2%float, 0.2%float)]; [(3%float, 0.3%float)]].

(** ** The EM loop of a mixture *)

Module EM.
Section defs.
Context {D : Type}.
(** What the loop asks of a component: the log-probability of one sample,
    and [summarize(X, weights)] followed by [from_summaries()]. *)
Variable log_probability : D → R → R.
Variable fit : list (R * R) → D → D.

(** The sum of a list of reals. *)
Definition total (l : list R) : R := foldr Rplus 0%R l.

(** Modelled from the spec: [log (sum_k exp a_k)]. *)
Definition logsumexp (a : list R) : R := ln (total (exp <$> a)).

(** Modelled from the spec: a mixture, the library's [GeneralMixtureModel],
    which the tutorials train and whose code is not among them: its
    components in order and a prior weight for each.  Log-probabilities
    are real numbers here, so prior weights are meant positive and no
    sample impossible. *)
Record t : Type := mk {
  distributions : list D;
  weights : list R;
}.

(** Modelled from the spec: [log_prior[k] + log_prob_k(x)] for every
    component [k]. *)
Definition joint_log_probability (model : t) (x : R) : list R :=
  zip_with (λ prior distribution, (ln prior + log_probability distribution x)%R)
    (weights model) (distributions model).

(** Modelled from the spec:
    [r[i][k] = exp(log_prior[k] + log_prob_k(x_i) - logsumexp_k(...))]. *)
Definition responsibilities (model : t) (x : R) : list R :=
  (λ a, exp (a - logsumexp (joint_log_probability model x))) <$>
    joint_log_probability model x.

(** Modelled from the spec: the total log-likelihood of the data. *)
Definition log_likelihood (model : t) (X : list R) : R :=
  total ((λ x, logsumexp (joint_log_probability model x)) <$> X).

(** [r[:, k]] *)
Definition column (k : nat) (r : list (list R)) : list R :=
  (λ row, default 0%R (row !! k)) <$> r.

(** Modelled from the spec: one iteration.  Every component summarizes the
    data with its column of the responsibilities as weights and is
    finalized; [prior[k] = sum_i r[i][k] / N]. *)
Definition em_step (model : t) (X : list R) : t :=
  let r := responsibilities model <$> X in
  mk (imap (λ k distribution, fit (zip X (column k r)) distribution)
        (distributions model))
     (imap (λ k (_ : R), (total (column k r) / INR (length X))%R) (weights model)).

(** What the update of an iteration works on: the log-probabilities of the
    new model with sample and component both known, weighted by the
    responsibilities of the old model. *)
Definition expected_log_likelihood (old new : t) (X : list R) : R :=
  total ((λ x, total (zip_with Rmult (responsibilities old x)
                        (joint_log_probability new x))) <$> X).

End defs.
End EM.

(** The two methods the EM loop calls on a [StudentTDistribution]. *)
Definition student_log_probability (self : StudentTDistribution.t) (x : R) : R :=
  R_t1_logpdf x (StudentTDistribution.df self) (StudentTDistribution.mu self)
    (StudentTDistribution.std self).

Definition student_fit (b : list (R * R)) (self : StudentTDistribution.t)
  : StudentTDistribution.t :=
  state_after (StudentTDistribution.from_summaries 0%R)
    (state_after (StudentTDistribution.summarize (Vec b.*1) (Some b.*2)) self).

(** The same for [NormalDistribution2]. *)
Definition normal2_log_probability (self : NormalDistribution2.t) (x : R) : R :=
  R_norm_logpdf x (NormalDistribution2.mu self) (NormalDistribution2.std self).

Definition normal2_fit (b : list (R * R)) (self : NormalDistribution2.t)
  : NormalDistribution2.t :=
  state_after (NormalDistribution2.from_summaries 0%R)
    (state_after (NormalDistribution2.summarize (Vec b.*1) (Some b.*2)) self).

(** Two Cauchy components at 0 with scale 1, the default [df], and the
    data 0, 0, 0, 0, 5. *)
Definition cauchy_mixture : EM.t :=
  EM.mk [StudentTDistribution.init 0%R 1%R 1%R; StudentTDistribution.init 0%R 1%R 1%R]
    [(1 / 2)%R; (1 / 2)%R].
Definition cauchy_data : list R := [0%R; 0%R; 0%R; 0%R; 5%R].

(** Two normal components at 0 with standard deviation 1 and the data
    0, 2. *)
Definition normal_mixture : EM.t :=
  EM.mk [NormalDistribution2.init 0%R 1%R; NormalDistribution2.init 0%R 1%R]
    [(1 / 2)%R; (1 / 2)%R].
Definition normal_data : list R := [0%R; 2%R].

(** For one sample: [a] and [a'] are the joint log-probabilities under the
    old and the new model, [c] the old [logsumexp]. *)
Definition gain_terms (c : R) (a a' : list R) : list (R * R) :=
  zip_with (λ v v', (exp (v - c), v' - v)%R) a a'.

(** The log-likelihood of weighted samples [(x, w)] under one component:
    what [summarize(X, w)] followed by [from_summaries()] is to make as
    large as it can. *)
Definition weighted_log_likelihood {D : Type} (log_probability : D → R → R)
    (b : list (R * R)) (distribution : D) : R :=
  EM.total ((λ p, p.2 * log_probability distribution p.1)%R <$> b).

(** ** The remaining methods of the tutorial's classes *)

(** [StudentTDistribution.probability(self, X)]: [numpy.exp] of the
    log-probabilities, entry by entry. *)
Definition student_probability {A : Type} `{Num A} (np_exp : A → A)
    (t_logpdf : A → A → A → A → A) (self : StudentTDistribution.t)
    (X : ndarray A) : ndarray A :=
  ndarray_map np_exp (StudentTDistribution.log_probability t_logpdf self X).

(** A [StudentTDistribution] seen through the attributes it shares with a
    [NormalDistribution2]: all but [df]. *)
Definition as_normal {A : Type} (self : @StudentTDistribution.t A)
  : @NormalDistribution2.t A :=
  NormalDistribution2.mk (StudentTDistribution.mu self) (StudentTDistribution.std self)
    (StudentTDistribution.parameters self) (StudentTDistribution.d self)
    (StudentTDistribution.summaries self).

(** The class methods of [BlockGaussianDistribution].  Both build their
    components with the library's [MultivariateGaussianDistribution.blank],
    which is not in the tutorial: [blank_component d] stands for it. *)
Section block_class_methods.
Context {A D : Type} `{Num A} `{Distribution A D}.
Variable blank_component : nat → D.

(** [blank(cls, ds)] *)
Definition block_blank (ds : list nat) : BlockGaussianDistribution.t :=
  BlockGaussianDistribution.init (blank_component <$> ds).

(** [from_samples(cls, X, weights=None, ds=[])]: the new block and how the
    two calls on it ended. *)
Definition block_from_samples (X : ndarray A) (weights : option (list A))
    (ds : list nat) : result () * BlockGaussianDistribution.t :=
  (BlockGaussianDistribution.summarize X weights;;
   BlockGaussianDistribution.from_summaries num_zero)
    (BlockGaussianDistribution.init (blank_component <$> ds)).

End block_class_methods.

(** ** The data set of the parallelism tutorial *)

(** [a[idx]] for an array [idx] of indices: the entries at these indices,
    in the order of [idx]; numpy raises for an index out of range. *)
Definition take_indices {B : Type} (a : list B) (idx : list nat) : option (list B) :=
  mapM (λ k, a !! k) idx.

Section create_dataset.
Context {A : Type} `{Num A}.
(** The float of an integer. *)
Variable of_nat : nat → A.
(** What the random number generator hands out: [random_normal i loc n d]
    is the array of shape [(n, d)] that the [i]-th call of
    [numpy.random.normal(loc, 1, size=(n, d))] draws, and [shuffle l] the
    order in which [numpy.random.shuffle] leaves the array [l]. *)
Variable random_normal : nat → A → nat → nat → list (list A).
Variable shuffle : list nat → list nat.

(** The arrays [X] and [y] before they are shuffled. *)
Definition dataset_X (n_samples n_dim n_classes : nat) (alpha : A) : list (list A) :=
  concat ((λ i, random_normal i (of_nat i * alpha)%num n_samples n_dim)
            <$> seq 0 n_classes).
Definition dataset_y (n_samples n_classes : nat) : list A :=
  concat ((λ i, fmap (M:=list) (λ z, (z + of_nat i)%num) (zeros n_samples))
            <$> seq 0 n_classes).

(** [create_dataset(n_samples, n_dim, n_classes, alpha=1)];
    [numpy.concatenate] refuses an empty list of arrays. *)
Definition create_dataset (n_samples n_dim n_classes : nat) (alpha : A)
  : result (list (list A) * list A) :=
  match n_classes with
  | 0 => Exc ValueError
  | _ =>
      let X := dataset_X n_samples n_dim n_classes alpha in
      let y := dataset_y n_samples n_classes in
      let idx := shuffle (seq 0 (length X)) in
      match take_indices X idx, take_indices y idx with
      | Some X', Some y' => Val (X', y')
      | _, _ => Exc IndexError
      end
  end.

End create_dataset.

(** ** The estimates in exact arithmetic *)

(** The mean of weighted samples [(x, w)] and their mean squared
    deviation from it. *)
Definition weighted_mean (b : list (R * R)) : R :=
  (np_sum ((λ p, p.1 * p.2) <$> b) / np_sum b.*2)%R.
Definition weighted_variance (b : list (R * R)) : R :=
  (np_sum ((λ p, p.2 * ((p.1 - weighted_mean b) * (p.1 - weighted_mean b))) <$> b)
   / np_sum b.*2)%R.

(** ** Running a method in a proof *)

Ltac run_method :=
  repeat progress
    (unfold mbind, mret, M_bind, M_ret, state_after, or_raise, raise, gets, modify in *;
     cbn beta iota delta [fst snd] in * ).

(** * Properties *)

(** ** Running methods *)

Lemma bind_returned {S R1 R2} (m : M S R1) (k : R1 → M S R2) self r self' :
  m self = (Val r, self') → (m ≫= k) self = k r self'.
Proof. intros Hm. unfold mbind, M_bind. by rewrite Hm. Qed.

Lemma sequence_cons {S} (m : M S ()) ms self :
  sequence_ (m :: ms) self = (m;; sequence_ ms) self.
Proof. reflexivity. Qed.

(** ** Sums *)

Section sums.
Context {A : Type} `{NumLaws A}.

Lemma foldl_add_from (a : A) (l : list A) :
  foldl num_add a l = (a + np_sum l)%num.
Proof.
  unfold np_sum. revert a. induction l as [|x l IH]; intros a; simpl.
  - by rewrite num_add_0_r.
  - rewrite (IH (a + x)%num), (IH (num_zero + x)%num).
    by rewrite num_add_0_l, num_add_assoc.
Qed.

Lemma np_sum_app (l1 l2 : list A) :
  np_sum (l1 ++ l2) = (np_sum l1 + np_sum l2)%num.
Proof. unfold np_sum at 1. rewrite foldl_app. apply foldl_add_from. Qed.

End sums.

Lemma zip_with_fst_snd_fmap {A B C} (f : A → B → C) (l : list (A * B)) :
  zip_with f (l.*1) (l.*2) = (λ p, f p.1 p.2) <$> l.
Proof. induction l as [|[a b] l IH]; [done|]. simpl. f_equal. exact IH. Qed.

(** ** NormalDistribution2: what [summarize] accumulates *)

Section normal2_summarize.
Context {A : Type} `{Num A}.
Import NormalDistribution2.

Lemma np_dot_fst_snd (b : list (A * A)) :
  np_dot b.*1 b.*2 = Some (np_sum ((λ p, p.1 * p.2)%num <$> b)).
Proof.
  unfold np_dot. rewrite !length_fmap, decide_True by done.
  by rewrite zip_with_fst_snd_fmap.
Qed.

Lemma np_dot_square_fst_snd (b : list (A * A)) :
  np_dot (np_square b.*1) b.*2 = Some (np_sum ((λ p, square p.1 * p.2)%num <$> b)).
Proof.
  unfold np_dot, np_square. rewrite !length_fmap, decide_True by done.
  f_equal. f_equal. induction b as [|[x w] b IH]; [done|].
  simpl. f_equal. exact IH.
Qed.

Lemma summarize_weighted (b : list (A * A)) (self : t) :
  summarize (Vec b.*1) (Some b.*2) self
  = (Val (), set_summaries (vzip_with num_add (summaries self) (sufficient_statistics b)) self).
Proof.
  unfold summarize, summaries_iadd. cbn [default from_option Datatypes.id reshape_shape0 shape0].
  run_method. rewrite np_dot_fst_snd. run_method.
  rewrite np_dot_square_fst_snd. run_method.
  f_equal. destruct self as [m s p n v]. unfold set_summaries. cbn.
  f_equal. inv_vec v. intros. reflexivity.
Qed.

End normal2_summarize.

Section normal2_additivity.
Context {A : Type} `{NumLaws A}.
Import NormalDistribution2.

Lemma sufficient_statistics_app (b1 b2 : list (A * A)) :
  sufficient_statistics (b1 ++ b2)
  = vzip_with num_add (sufficient_statistics b1) (sufficient_statistics b2).
Proof. unfold sufficient_statistics. by rewrite !fmap_app, !np_sum_app. Qed.

Lemma add_statistics_zero (self : t) :
  set_summaries (vzip_with num_add (summaries self) (sufficient_statistics [])) self
  = self.
Proof.
  destruct self as [m s p n v]. unfold set_summaries. cbn. f_equal.
  inv_vec v. intros x y z. cbn. unfold np_sum. cbn.
  by rewrite !num_add_0_r.
Qed.

Lemma add_statistics_twice (self : t) (u v : vec A 3) :
  set_summaries
    (vzip_with num_add
       (summaries (set_summaries (vzip_with num_add (summaries self) u) self)) v)
    (set_summaries (vzip_with num_add (summaries self) u) self)
  = set_summaries (vzip_with num_add (summaries self) (vzip_with num_add u v)) self.
Proof.
  destruct self as [m s p n w]. unfold set_summaries. cbn. f_equal.
  inv_vec w. inv_vec u. inv_vec v. intros. cbn.
  by rewrite !num_add_assoc.
Qed.

Lemma summarize_batches_at_once (batches : list (list (A * A))) (self : t) :
  summarize_batches batches self
  = summarize (Vec (concat batches).*1) (Some (concat batches).*2) self.
Proof.
  unfold summarize_batches. revert self.
  induction batches as [|b batches IH]; intros self.
  - rewrite summarize_weighted. cbn. by rewrite add_statistics_zero.
  - rewrite fmap_cons, sequence_cons.
    erewrite bind_returned by apply summarize_weighted.
    rewrite IH. cbn [concat]. rewrite !summarize_weighted.
    by rewrite add_statistics_twice, sufficient_statistics_app.
Qed.

Lemma summarize_without_weights (X : list A) (self : t) :
  summarize (Vec X) None self
  = summarize (Vec (zip X (ones (length X))).*1)
      (Some (zip X (ones (length X))).*2) self.
Proof.
  rewrite fst_zip, snd_zip by (unfold ones; rewrite length_replicate; lia).
  reflexivity.
Qed.

Lemma zip_ones_concat (batches : list (list A)) :
  concat ((λ X, zip X (ones (length X))) <$> batches)
  = zip (concat batches) (ones (length (concat batches))).
Proof.
  induction batches as [|X batches IH]; [done|].
  cbn [fmap list_fmap concat]. rewrite IH, length_app.
  unfold ones. rewrite replicate_add.
  rewrite zip_with_app; [done|].
  by rewrite length_replicate.
Qed.

Lemma summarize_unweighted_batches_at_once (batches : list (list A)) (self : t) :
  summarize_unweighted_batches batches self = summarize (Vec (concat batches)) None self.
Proof.
  rewrite summarize_without_weights, <- zip_ones_concat.
  rewrite <- summarize_batches_at_once.
  unfold summarize_unweighted_batches, summarize_batches.
  rewrite <- list_fmap_compose.
  revert self. induction batches as [|X batches IH]; intros self; [done|].
  rewrite !fmap_cons, !sequence_cons. unfold mbind, M_bind.
  cbn [compose]. rewrite <- summarize_without_weights.
  destruct (summarize (Vec X) None self) as [[[]|e] self']; [apply IH|done].
Qed.

End normal2_additivity.

Lemma student_summarize_weighted {A : Type} `{Num A} (b : list (A * A))
    (self : StudentTDistribution.t) :
  StudentTDistribution.summarize (Vec b.*1) (Some b.*2) self
  = (Val (),
     StudentTDistribution.set_summaries
       (vzip_with num_add (StudentTDistribution.summaries self)
          (sufficient_statistics b)) self).
Proof.
  unfold StudentTDistribution.summarize, StudentTDistribution.summaries_iadd.
  cbn [default from_option Datatypes.id reshape_shape0 shape0].
  run_method. rewrite np_dot_fst_snd. run_method.
  rewrite np_dot_square_fst_snd. run_method.
  f_equal. destruct self as [m s f p n v]. unfold StudentTDistribution.set_summaries. cbn.
  f_equal. inv_vec v. intros. reflexivity.
Qed.

Section student_additivity.
Context {A : Type} `{NumLaws A}.
Import StudentTDistribution.

Lemma student_add_statistics_zero (self : t) :
  set_summaries (vzip_with num_add (summaries self) (sufficient_statistics [])) self
  = self.
Proof.
  destruct self as [m s f p n v]. unfold set_summaries. cbn. f_equal.
  inv_vec v. intros x y z. cbn. unfold np_sum. cbn.
  by rewrite !num_add_0_r.
Qed.

Lemma student_add_statistics_twice (self : t) (u v : vec A 3) :
  set_summaries
    (vzip_with num_add
       (summaries (set_summaries (vzip_with num_add (summaries self) u) self)) v)
    (set_summaries (vzip_with num_add (summaries self) u) self)
  = set_summaries (vzip_with num_add (summaries self) (vzip_with num_add u v)) self.
Proof.
  destruct self as [m s f p n w]. unfold set_summaries. cbn. f_equal.
  inv_vec w. inv_vec u. inv_vec v. intros. cbn.
  by rewrite !num_add_assoc.
Qed.

Lemma student_summarize_batches_at_once (batches : list (list (A * A))) (self : t) :
  student_summarize_batches batches self
  = summarize (Vec (concat batches).*1) (Some (concat batches).*2) self.
Proof.
  unfold student_summarize_batches. revert self.
  induction batches as [|b batches IH]; intros self.
  - rewrite student_summarize_weighted. cbn. by rewrite student_add_statistics_zero.
  - rewrite fmap_cons, sequence_cons.
    erewrite bind_returned by apply student_summarize_weighted.
    rewrite IH. cbn [concat]. rewrite !student_summarize_weighted.
    by rewrite student_add_statistics_twice, sufficient_statistics_app.
Qed.

End student_additivity.

(** C1, amended.  Additivity of the accumulator of [NormalDistribution2],
    in exact arithmetic.  Over numbers whose addition is a monoid, calling
    [summarize] once per batch, batch after batch, leaves the object
    exactly as one call of [summarize] on the concatenation of the batches
    does: the same triple (sum of weights, weighted sum, weighted sum of
    squares) is added to the accumulator, with weights and without, and
    [from_summaries] then yields the same parameters.
    [StudentTDistribution] accumulates the same way.  Binary64 addition is
    no monoid, and there the statement fails, by more than rounding. *)
Theorem summarize_additive_over_batches {A : Type} `{NumLaws A}
    (self : NormalDistribution2.t) (student : StudentTDistribution.t)
    (batches : list (list (A * A))) (unweighted : list (list A)) (inertia : A) :
  let at_once :=
    NormalDistribution2.summarize
      (Vec (concat batches).*1) (Some (concat batches).*2) in
  summarize_batches batches self = at_once self
  ∧ NormalDistribution2.summaries (state_after (summarize_batches batches) self)
    = vzip_with num_add (NormalDistribution2.summaries self)
        (sufficient_statistics (concat batches))
  ∧ (summarize_batches batches;; NormalDistribution2.from_summaries inertia) self
    = (at_once;; NormalDistribution2.from_summaries inertia) self
  ∧ summarize_unweighted_batches unweighted self
    = NormalDistribution2.summarize (Vec (concat unweighted)) None self
  ∧ student_summarize_batches batches student
    = StudentTDistribution.summarize
        (Vec (concat batches).*1) (Some (concat batches).*2) student.
Proof.
  cbv zeta. split_and!.
  - apply summarize_batches_at_once.
  - unfold state_after.
    by rewrite summarize_batches_at_once, summarize_weighted.
  - unfold mbind, M_bind. by rewrite summarize_batches_at_once.
  - apply summarize_unweighted_batches_at_once.
  - apply student_summarize_batches_at_once.
Qed.

Lemma summarize_additive_over_batches_witness :
  let self := NormalDistribution2.init 0%R 1%R in
  let batches := [[(1%R, 1%R); (2%R, 1%R)]; [(3%R, 2%R)]] in
  summarize_batches batches self
  = NormalDistribution2.summarize
      (Vec [1%R; 2%R; 3%R]) (Some [1%R; 1%R; 2%R]) self.
Proof.
  exact (proj1 (summarize_additive_over_batches
    (NormalDistribution2.init 0%R 1%R) (StudentTDistribution.init 0%R 1%R 1%R)
    [[(1%R, 1%R); (2%R, 1%R)]; [(3%R, 2%R)]] [] 0%R)).
Defined.

(** C1, on the code in binary64.  Three points near [2^26]; every point,
    square and exact sum is an integer that binary64 holds, but the sum of
    the three squares passes [2^53] on the way.  Summarized as the batch of
    the first point and the batch of the other two, the points give the
    standard deviation [sqrt 14], which is theirs; summarized in one call
    they give [sqrt 13].  The two sums of squares differ in the last
    place, and the variance, the difference of two numbers near [2^52],
    differs by one part in fourteen: far beyond a relative tolerance of
    [1e-9]. *)
Lemma summarize_batches_binary64_differ :
  let self := NormalDistribution2.init 0%float 1%float in
  let batches := [[67108864%float]; [67108867%float; 67108873%float]] in
  let batched :=
    state_after (summarize_unweighted_batches batches;;
                 NormalDistribution2.from_summaries 0%float) self in
  let at_once :=
    state_after (NormalDistribution2.summarize (Vec (concat batches)) None;;
                 NormalDistribution2.from_summaries 0%float) self in
  NormalDistribution2.parameters batched = (67108868%float, 3.7416573867739413%float)
  ∧ NormalDistribution2.parameters at_once = (67108868%float, 3.605551275463989%float)
  ∧ PrimFloat.ltb
      (1e-9 * NormalDistribution2.std batched)%float
      (NormalDistribution2.std batched - NormalDistribution2.std at_once)%float
    = true
  ∧ NormalDistribution2.summaries
      (state_after (summarize_unweighted_batches batches) self) !!! 2%fin
    ≠ NormalDistribution2.summaries
        (state_after (NormalDistribution2.summarize (Vec (concat batches)) None) self)
      !!! 2%fin.
Proof.
  cbv zeta. split_and!; [reflexivity..|].
  vm_compute. discriminate.
Qed.

(** In binary64 the two sides can differ in the last place: the sum of the
    weights [0.1], then [0.2; 0.3], against [0.1; 0.2; 0.3]. *)
Example summarize_batches_rounding :
  let self := NormalDistribution2.init 0%float 1%float in
  NormalDistribution2.summaries
    (state_after (sequence_
       [NormalDistribution2.summarize (Vec [1%float]) (Some [0.1%float]);
        NormalDistribution2.summarize (Vec [1%float; 1%float])
          (Some [0.2%float; 0.3%float])]) self) !!! 0%fin
  = 0.6%float
  ∧ NormalDistribution2.summaries
      (state_after (NormalDistribution2.summarize
         (Vec [1%float; 1%float; 1%float])
         (Some [0.1%float; 0.2%float; 0.3%float])) self) !!! 0%fin
    = 0.6000000000000001%float.
Proof. split; vm_compute; reflexivity. Qed.

(** [NormalDistribution2.from_samples(numpy.array([1., 2., 3., 4.]))] in
    binary64: the mean 2.5 and the standard deviation [sqrt(1.25)]; and a
    call of [summarize] whose weights do not fit the data raises after the
    sum of the weights has been added. *)
Example from_samples_float :
  NormalDistribution2.from_samples
    (Vec [1%float; 2%float; 3%float; 4%float]) None
  = (Val (),
     NormalDistribution2.mk 2.5%float 1.118033988749895%float
       (2.5%float, 1.118033988749895%float) 1 [# 0%float; 0%float; 0%float]).
Proof. reflexivity. Qed.

Example summarize_raises_half_way :
  NormalDistribution2.summarize (Vec [1%float; 2%float]) (Some [1%float])
    (NormalDistribution2.init 0%float 1%float)
  = (Exc ValueError,
     NormalDistribution2.mk 0%float 1%float (0%float, 1%float) 1
       [# 1%float; 0%float; 0%float]).
Proof. reflexivity. Qed.

(** ** Parameters and accumulator are separate *)

(** C4.  [log_probability] reads the parameters and the input, never the
    accumulator: two [NormalDistribution2] (or [StudentTDistribution])
    objects with the same [mu] and [std] (and [df]) give the same
    log-probabilities whatever their [summaries] hold, and a call of
    [summarize], whether it returns or raises, changes no later
    [log_probability]. *)
Theorem log_probability_ignores_summaries {A : Type} `{Num A}
    (norm_logpdf : A → A → A → A) (t_logpdf : A → A → A → A → A)
    (mu std df : A) (p1 p2 : A * A) (d1 d2 : nat) (acc1 acc2 : vec A 3)
    (X Y : ndarray A) (w : option (list A))
    (normal : NormalDistribution2.t) (student : StudentTDistribution.t) :
  NormalDistribution2.log_probability norm_logpdf
    (NormalDistribution2.mk mu std p1 d1 acc1) X
  = NormalDistribution2.log_probability norm_logpdf
      (NormalDistribution2.mk mu std p2 d2 acc2) X
  ∧ StudentTDistribution.log_probability t_logpdf
      (StudentTDistribution.mk mu std df p1 d1 acc1) X
    = StudentTDistribution.log_probability t_logpdf
        (StudentTDistribution.mk mu std df p2 d2 acc2) X
  ∧ NormalDistribution2.log_probability norm_logpdf
      (state_after (NormalDistribution2.summarize Y w) normal) X
    = NormalDistribution2.log_probability norm_logpdf normal X
  ∧ StudentTDistribution.log_probability t_logpdf
      (state_after (StudentTDistribution.summarize Y w) student) X
    = StudentTDistribution.log_probability t_logpdf student X.
Proof.
  split_and!; [reflexivity..| |].
  - unfold NormalDistribution2.log_probability. f_equal.
    destruct normal as [m s p n v].
    unfold NormalDistribution2.summarize, NormalDistribution2.summaries_iadd.
    run_method.
    destruct (reshape_shape0 Y) as [x|]; [|done]. run_method.
    destruct (np_dot x _) as [xw|]; [|done]. run_method.
    destruct (np_dot (np_square x) _) as [x2w|]; done.
  - unfold StudentTDistribution.log_probability. f_equal.
    destruct student as [m s f p n v].
    unfold StudentTDistribution.summarize, StudentTDistribution.summaries_iadd.
    run_method.
    destruct (reshape_shape0 Y) as [x|]; [|done]. run_method.
    destruct (np_dot x _) as [xw|]; [|done]. run_method.
    destruct (np_dot (np_square x) _) as [x2w|]; done.
Qed.

(** What [from_summaries] computes, written out. *)
Lemma normal2_from_summaries {A : Type} `{Num A} (inertia : A)
    (self : NormalDistribution2.t) :
  let s := NormalDistribution2.summaries self in
  let mu := (s !!! 1%fin / s !!! 0%fin)%num in
  let std :=
    num_sqrt (s !!! 2%fin / s !!! 0%fin
              - square (s !!! 1%fin) / square (s !!! 0%fin))%num in
  NormalDistribution2.from_summaries inertia self
  = (Val (), NormalDistribution2.mk mu std (mu, std)
               (NormalDistribution2.d self) (vreplicate 3 num_zero)).
Proof. by destruct self. Qed.

Lemma student_from_summaries {A : Type} `{Num A} (inertia : A)
    (self : StudentTDistribution.t) :
  let s := StudentTDistribution.summaries self in
  let mu := (s !!! 1%fin / s !!! 0%fin)%num in
  let std :=
    num_sqrt (s !!! 2%fin / s !!! 0%fin
              - square (s !!! 1%fin) / square (s !!! 0%fin))%num in
  StudentTDistribution.from_summaries inertia self
  = (Val (), StudentTDistribution.mk mu std (StudentTDistribution.df self)
               (mu, std) (StudentTDistribution.d self) (vreplicate 3 num_zero)).
Proof. by destruct self. Qed.

(** The accumulator after [summarize] is a function of the accumulator
    before it and of the arguments, on every path through the method. *)
Lemma normal2_summarize_summaries {A : Type} `{Num A}
    (X : ndarray A) (w : option (list A)) (self1 self2 : NormalDistribution2.t) :
  NormalDistribution2.summaries self1 = NormalDistribution2.summaries self2 →
  NormalDistribution2.summaries (state_after (NormalDistribution2.summarize X w) self1)
  = NormalDistribution2.summaries (state_after (NormalDistribution2.summarize X w) self2).
Proof.
  destruct self1 as [m1 s1 p1 n1 v1], self2 as [m2 s2 p2 n2 v2].
  cbn. intros ->.
  unfold NormalDistribution2.summarize, NormalDistribution2.summaries_iadd.
  run_method.
  destruct (reshape_shape0 X) as [x|]; [|done]. run_method.
  destruct (np_dot x _) as [xw|]; [|done]. run_method.
  destruct (np_dot (np_square x) _) as [x2w|]; done.
Qed.

Lemma student_summarize_summaries {A : Type} `{Num A}
    (X : ndarray A) (w : option (list A)) (self1 self2 : StudentTDistribution.t) :
  StudentTDistribution.summaries self1 = StudentTDistribution.summaries self2 →
  StudentTDistribution.summaries (state_after (StudentTDistribution.summarize X w) self1)
  = StudentTDistribution.summaries (state_after (StudentTDistribution.summarize X w) self2).
Proof.
  destruct self1 as [m1 s1 f1 p1 n1 v1], self2 as [m2 s2 f2 p2 n2 v2].
  cbn. intros ->.
  unfold StudentTDistribution.summarize, StudentTDistribution.summaries_iadd.
  run_method.
  destruct (reshape_shape0 X) as [x|]; [|done]. run_method.
  destruct (np_dot x _) as [xw|]; [|done]. run_method.
  destruct (np_dot (np_square x) _) as [x2w|]; done.
Qed.

(** C5.  [from_summaries] ends by clearing: afterwards the accumulator is
    [numpy.zeros(3)], the very state [clear_summaries] produces.  What a
    later [summarize] and [from_summaries] compute is therefore what they
    compute on any freshly cleared object: only the data summarized since
    the previous [from_summaries] counts, and a second [from_summaries]
    with nothing in between finalizes the empty accumulator. *)
Theorem from_summaries_clears_summaries {A : Type} `{Num A}
    (normal normal' : NormalDistribution2.t)
    (student student' : StudentTDistribution.t)
    (inertia inertia' inertia'' : A) (X : ndarray A) (w : option (list A)) :
  let N_done := state_after (NormalDistribution2.from_summaries inertia) normal in
  let N_clear := state_after (NormalDistribution2.clear_summaries inertia') normal' in
  let N_next start :=
    state_after (NormalDistribution2.from_summaries inertia'')
      (state_after (NormalDistribution2.summarize X w) start) in
  let T_done := state_after (StudentTDistribution.from_summaries inertia) student in
  let T_clear := state_after (StudentTDistribution.clear_summaries inertia') student' in
  let T_next start :=
    state_after (StudentTDistribution.from_summaries inertia'')
      (state_after (StudentTDistribution.summarize X w) start) in
  (NormalDistribution2.summaries N_done = vreplicate 3 num_zero
   ∧ NormalDistribution2.summaries N_done = NormalDistribution2.summaries N_clear
   ∧ NormalDistribution2.parameters (N_next N_done)
     = NormalDistribution2.parameters (N_next N_clear)
   ∧ NormalDistribution2.parameters
       (state_after (NormalDistribution2.from_summaries inertia'') N_done)
     = ((num_zero / num_zero)%num,
        num_sqrt (num_zero / num_zero
                  - square num_zero / square num_zero)%num))
  ∧ (StudentTDistribution.summaries T_done = vreplicate 3 num_zero
     ∧ StudentTDistribution.summaries T_done = StudentTDistribution.summaries T_clear
     ∧ StudentTDistribution.parameters (T_next T_done)
       = StudentTDistribution.parameters (T_next T_clear)
     ∧ StudentTDistribution.parameters
         (state_after (StudentTDistribution.from_summaries inertia'') T_done)
       = ((num_zero / num_zero)%num,
          num_sqrt (num_zero / num_zero
                    - square num_zero / square num_zero)%num)).
Proof.
  cbv zeta. split; split_and!.
  - unfold state_after. by rewrite normal2_from_summaries.
  - unfold state_after. by rewrite normal2_from_summaries.
  - unfold state_after at 1 4. rewrite !normal2_from_summaries. cbn [snd].
    by rewrite (normal2_summarize_summaries X w _
      (state_after (NormalDistribution2.clear_summaries inertia') normal'))
      by (unfold state_after; by rewrite normal2_from_summaries).
  - unfold state_after. by rewrite !normal2_from_summaries.
  - unfold state_after. by rewrite student_from_summaries.
  - unfold state_after. by rewrite student_from_summaries.
  - unfold state_after at 1 4. rewrite !student_from_summaries. cbn [snd].
    by rewrite (student_summarize_summaries X w _
      (state_after (StudentTDistribution.clear_summaries inertia') student'))
      by (unfold state_after; by rewrite student_from_summaries).
  - unfold state_after. by rewrite !student_from_summaries.
Qed.

(** [summarize] of [StudentTDistribution] assigns nothing but the
    accumulator. *)
Lemma student_summarize_frame {A : Type} `{Num A} (X : ndarray A)
    (w : option (list A)) (self : StudentTDistribution.t) :
  StudentTDistribution.df (state_after (StudentTDistribution.summarize X w) self)
  = StudentTDistribution.df self
  ∧ StudentTDistribution.d (state_after (StudentTDistribution.summarize X w) self)
    = StudentTDistribution.d self.
Proof.
  destruct self as [m s f p n v].
  unfold StudentTDistribution.summarize, StudentTDistribution.summaries_iadd.
  run_method.
  destruct (reshape_shape0 X) as [x|]; [|done]. run_method.
  destruct (np_dot x _) as [xw|]; [|done]. run_method.
  destruct (np_dot (np_square x) _) as [x2w|]; done.
Qed.

(** C10.  [StudentTDistribution.from_summaries] assigns [mu], [std],
    [parameters] and the accumulator; the degrees of freedom [df] (and
    [d]) stay what they were, whatever was summarized before. *)
Theorem from_summaries_keeps_df {A : Type} `{Num A}
    (self : StudentTDistribution.t) (calls : list (ndarray A * option (list A)))
    (inertia : A) :
  let summarized :=
    state_after (sequence_ ((λ c, StudentTDistribution.summarize c.1 c.2) <$> calls))
      self in
  StudentTDistribution.df (state_after (StudentTDistribution.from_summaries inertia) self)
  = StudentTDistribution.df self
  ∧ StudentTDistribution.df
      (state_after (StudentTDistribution.from_summaries inertia) summarized)
    = StudentTDistribution.df self
  ∧ StudentTDistribution.d
      (state_after (StudentTDistribution.from_summaries inertia) summarized)
    = StudentTDistribution.d self.
Proof.
  cbv zeta.
  assert (Hseq : ∀ (s : StudentTDistribution.t),
    let s' := state_after
      (sequence_ ((λ c, StudentTDistribution.summarize c.1 c.2) <$> calls)) s in
    StudentTDistribution.df s' = StudentTDistribution.df s
    ∧ StudentTDistribution.d s' = StudentTDistribution.d s).
  { induction calls as [|[X w] calls IH]; intros s; [done|].
    cbv zeta. rewrite fmap_cons. unfold state_after. rewrite sequence_cons.
    unfold mbind, M_bind. cbn [fst snd].
    destruct (student_summarize_frame X w s) as [Hf Hd]. unfold state_after in Hf, Hd.
    destruct (StudentTDistribution.summarize X w s) as [[[]|e] s1]; cbn [snd] in *.
    - destruct (IH s1) as [IHf IHd]. unfold state_after in IHf, IHd.
      by rewrite IHf, IHd.
    - done. }
  destruct (Hseq self) as [Hf Hd].
  unfold state_after in *. rewrite !student_from_summaries. cbn [snd].
  by rewrite Hf, Hd.
Qed.

(** ** [from_summaries] and its argument *)

(** C2, on the code.  [from_summaries] of [NormalDistribution2] and of
    [StudentTDistribution] does the same whatever [inertia] it is given.
    In binary64, an object with [mu = 10], [std = 1] that summarized the
    points [0] and [2] and is finalized with [inertia = 0.5] gets the
    estimates [mu = 1], [std = 1] themselves; the blend would be
    [mu = 5.5]. *)
Theorem from_summaries_ignores_inertia :
  (∀ (A : Type) (N : Num A) (i1 i2 : A) (self : NormalDistribution2.t),
     NormalDistribution2.from_summaries i1 self
     = NormalDistribution2.from_summaries i2 self)
  ∧ (∀ (A : Type) (N : Num A) (i1 i2 : A) (self : StudentTDistribution.t),
       StudentTDistribution.from_summaries i1 self
       = StudentTDistribution.from_summaries i2 self)
  ∧ (let old := NormalDistribution2.init 10%float 1%float in
     let self :=
       state_after
         (NormalDistribution2.summarize (Vec [0%float; 2%float]) None) old in
     let new := state_after (NormalDistribution2.from_summaries 0.5%float) self in
     NormalDistribution2.parameters new = (1%float, 1%float)
     ∧ NormalDistribution2.parameters
         (state_after (NormalDistribution2.from_summaries 0%float) self)
       = (1%float, 1%float)
     ∧ blend 0.5%float (NormalDistribution2.mu old) 1%float = 5.5%float
     ∧ NormalDistribution2.mu new
       ≠ blend 0.5%float (NormalDistribution2.mu old) 1%float).
Proof.
  split_and!.
  - intros. by rewrite !normal2_from_summaries.
  - intros. by rewrite !student_from_summaries.
  - cbv zeta. split_and!; [reflexivity..|].
    vm_compute. discriminate.
Qed.

(** C3, on the code: finalizing the blank [NormalDistribution2] (binary64)
    raises nothing.  The call returns, and [mu] and [std] are [0/0]. *)
Lemma from_summaries_blank_returns :
  NormalDistribution2.from_summaries 0%float NormalDistribution2.blank
  = (Val (), NormalDistribution2.mk nan nan (nan, nan) 1 [# 0%float; 0%float; 0%float])
  ∧ (NormalDistribution2.from_summaries 0%float NormalDistribution2.blank).1
    ≠ Exc InsufficientDataError.
Proof. split; [reflexivity|]. vm_compute. discriminate. Qed.

(** C3, amended.  [from_summaries] of [NormalDistribution2] and of
    [StudentTDistribution] never raises, whatever the accumulator holds,
    a total weight of zero included; it returns and leaves the accumulator
    cleared. *)
Theorem from_summaries_never_raises {A : Type} `{Num A} (inertia : A)
    (normal : NormalDistribution2.t) (student : StudentTDistribution.t) :
  (NormalDistribution2.from_summaries inertia normal).1 = Val ()
  ∧ NormalDistribution2.summaries
      (state_after (NormalDistribution2.from_summaries inertia) normal)
    = vreplicate 3 num_zero
  ∧ (StudentTDistribution.from_summaries inertia student).1 = Val ()
  ∧ StudentTDistribution.summaries
      (state_after (StudentTDistribution.from_summaries inertia) student)
    = vreplicate 3 num_zero.
Proof.
  unfold state_after.
  rewrite normal2_from_summaries, student_from_summaries. done.
Qed.

(** ** BlockGaussianDistribution *)

Section block.
Context {A D : Type} `{Num A} `{Distribution A D}.
Import BlockGaussianDistribution.

(** The ranges of a block follow one another from the first column it is
    given to the last. *)
Lemma slices_from_columns (i : nat) (ds : list D) :
  concat ((λ s : nat * nat, seq s.1 (s.2 - s.1)) <$> slices_from i ds)
  = seq i (sum_list (dist_d <$> ds)).
Proof.
  revert i. induction ds as [|distribution ds IH]; intros i; [done|].
  cbn [slices_from fmap list_fmap concat sum_list sum_list_with fst snd].
  change (list_fmap _ _ ?f ?l) with (f <$> l).
  rewrite IH, seq_app.
  replace (i + dist_d distribution - i) with (dist_d distribution) by lia.
  reflexivity.
Qed.

Lemma slices_from_length (i : nat) (ds : list D) :
  length (slices_from i ds) = length ds.
Proof. revert i. induction ds as [|? ds IH]; intros i; [done|]. cbn. by rewrite IH. Qed.

Lemma slices_from_take_drop (i : nat) (ds : list D) (row : list A) :
  concat ((λ s : nat * nat, take (s.2 - s.1) (drop s.1 row)) <$> slices_from i ds)
  = take (sum_list (dist_d <$> ds)) (drop i row).
Proof.
  revert i. induction ds as [|distribution ds IH]; intros i.
  - cbn. by rewrite take_0.
  - cbn [slices_from fmap list_fmap concat sum_list sum_list_with fst snd].
    change (list_fmap _ _ ?f ?l) with (f <$> l).
    rewrite IH. replace (i + dist_d distribution - i) with (dist_d distribution) by lia.
    rewrite <- drop_drop, <- take_take_drop. done.
Qed.

End block.

Section block_log_probability.
Context {A D : Type} `{Num A} `{Distribution A D}.
Import BlockGaussianDistribution.

Lemma foldl_zip_with_add (n : nat) (lps : list (list A)) (acc : list A) :
  length acc = n →
  Forall (λ lp, length lp = n) lps →
  foldl (zip_with num_add) acc lps
  = (λ j, foldl num_add (default num_zero (acc !! j))
            ((λ lp, default num_zero (lp !! j)) <$> lps)) <$> seq 0 n.
Proof.
  intros Hacc Hlps. revert acc Hacc.
  induction Hlps as [|lp lps Hlp _ IH]; intros acc Hacc.
  - apply list_eq. intros j. rewrite list_lookup_fmap. cbn [fmap list_fmap foldl].
    destruct (decide (j < n)) as [Hj|Hj].
    + rewrite lookup_seq_lt by done. cbn.
      destruct (lookup_lt_is_Some_2 acc j) as [x Hx]; [lia|]. by rewrite Hx.
    + rewrite lookup_seq_ge by lia. cbn. apply lookup_ge_None_2. lia.
  - cbn [foldl]. rewrite IH by (rewrite length_zip_with; lia).
    apply list_eq. intros j. rewrite !list_lookup_fmap.
    destruct (decide (j < n)) as [Hj|Hj].
    + rewrite lookup_seq_lt by done. cbn. do 2 f_equal.
      rewrite lookup_zip_with.
      destruct (lookup_lt_is_Some_2 acc j) as [x Hx]; [lia|].
      destruct (lookup_lt_is_Some_2 lp j) as [y Hy]; [lia|].
      by rewrite Hx, Hy.
    + by rewrite lookup_seq_ge by lia.
Qed.

Lemma foldl_zip_with_add_zeros (n : nat) (lps : list (list A)) :
  Forall (λ lp, length lp = n) lps →
  foldl (zip_with num_add) (zeros n) lps = sum_of_log_probabilities n lps.
Proof.
  intros Hlps. rewrite (foldl_zip_with_add n) by (done || apply length_replicate).
  unfold sum_of_log_probabilities, np_sum.
  apply list_eq. intros j. rewrite !list_lookup_fmap.
  destruct (decide (j < n)) as [Hj|Hj].
  - rewrite lookup_seq_lt by done. cbn. do 2 f_equal.
    unfold zeros. by rewrite lookup_replicate_2.
  - by rewrite lookup_seq_ge by lia.
Qed.

(** The loop of [log_probability] when every component answers its
    columns with one number per row. *)
Lemma log_probability_loop_returns (rows : list (list A)) (ds : list D)
    (lps : list (list A)) (i : nat) (acc : list A) :
  length acc = length rows →
  Forall2 (λ (c : D * (nat * nat)) lp,
      dist_log_probability c.1 (Mat (slice_cols rows c.2.1 c.2.2)) = Val (Vec lp)
      ∧ length lp = length rows)
    (zip ds (slices_from i ds)) lps →
  log_probability_loop ds (Mat rows) i acc = Val (foldl (zip_with num_add) acc lps).
Proof.
  revert lps i acc. induction ds as [|distribution ds IH]; intros lps i acc Hacc Hlps.
  - cbn in Hlps. apply Forall2_nil_inv_l in Hlps as ->. done.
  - cbn [slices_from] in Hlps. cbn [zip_with] in Hlps.
    apply Forall2_cons_inv_l in Hlps as (lp & lps' & [Hlp Hlen] & Hlps & ->).
    cbn [fst snd] in Hlp.
    cbn [log_probability_loop columns]. rewrite Hlp. cbn [mbind result_bind].
    unfold iadd. rewrite decide_True by lia.
    cbn [foldl]. apply IH; [|done]. rewrite length_zip_with. lia.
Qed.

End block_log_probability.

Section block_delegation.
Context {A D : Type} `{Num A} `{FixedDimension A D}.
Import BlockGaussianDistribution.

(** The loop of [summarize] when every component's [summarize] returns:
    each component has summarized its own columns, and the loop variable
    has reached the end of the last range. *)
Lemma summarize_body_returns (X : list (list A)) (w : option (list A))
    (distribution : D) (i : nat) :
  (dist_summarize (Mat (slice_cols X i (i + dist_d distribution))) w distribution).1
  = Val () →
  summarize_body (Mat X) w i distribution
  = (Val (i + dist_d distribution),
     state_after (dist_summarize (Mat (slice_cols X i (i + dist_d distribution))) w)
       distribution).
Proof.
  intros Hd. unfold summarize_body. cbn [columns]. run_method.
  pose proof (summarize_keeps_d
    (Mat (slice_cols X i (i + dist_d distribution))) w distribution) as Hkeep.
  unfold state_after in Hkeep.
  destruct (dist_summarize _ w distribution) as [r distribution'].
  cbn [fst snd] in *. subst r. by rewrite Hkeep.
Qed.

Lemma summarize_loop_returns (X : list (list A)) (w : option (list A))
    (ds : list D) (i : nat) :
  Forall (λ c : D * (nat * nat),
      (dist_summarize (Mat (slice_cols X c.2.1 c.2.2)) w c.1).1 = Val ())
    (zip ds (slices_from i ds)) →
  for_each (summarize_body (Mat X) w) i ds
  = (Val (i + sum_list (dist_d <$> ds)),
     zip_with (λ distribution (s : nat * nat),
         state_after (dist_summarize (Mat (slice_cols X s.1 s.2)) w) distribution)
       ds (slices_from i ds)).
Proof.
  revert i. induction ds as [|distribution ds IH]; intros i Hall.
  - cbn. by rewrite Nat.add_0_r.
  - cbn [slices_from zip_with] in Hall. apply Forall_cons in Hall as [Hd Hall].
    cbn [fst snd] in Hd.
    cbn [for_each slices_from zip_with fst snd].
    rewrite summarize_body_returns by done.
    rewrite IH by done. cbn [sum_list sum_list_with fmap list_fmap].
    f_equal. f_equal. unfold Datatypes.id.
    change (list_fmap _ _ ?f ?l) with (f <$> l). lia.
Qed.

(** The loop of [from_summaries] when every component's returns. *)
Lemma from_summaries_loop_returns (inertia : A) (ds : list D) :
  Forall (λ distribution, (dist_from_summaries inertia distribution).1 = Val ()) ds →
  for_each (λ _ : (), dist_from_summaries inertia) () ds
  = (Val (), state_after (dist_from_summaries inertia) <$> ds).
Proof.
  induction 1 as [|distribution ds Hd _ IH]; [done|].
  cbn [for_each fmap list_fmap]. unfold state_after at 1.
  destruct (dist_from_summaries inertia distribution) as [r distribution'].
  cbn [fst snd] in *. subst r. by rewrite IH.
Qed.

(** Components of the same [d] are handed the same columns. *)
Lemma slices_from_same_d (i : nat) (ds ds' : list D) :
  Forall2 (λ a b, dist_d a = dist_d b) ds ds' →
  slices_from i ds = slices_from i ds'.
Proof.
  intros Hds. revert i. induction Hds as [|a b ds ds' Hab _ IH]; intros i; [done|].
  cbn. by rewrite Hab, IH.
Qed.

Lemma summarized_same_d (X : list (list A)) (w : option (list A)) (ds : list D)
    (ss : list (nat * nat)) :
  length ss = length ds →
  Forall2 (λ a b, dist_d a = dist_d b) ds
    (zip_with (λ distribution (s : nat * nat),
         state_after (dist_summarize (Mat (slice_cols X s.1 s.2)) w) distribution)
       ds ss).
Proof.
  revert ss. induction ds as [|distribution ds IH]; intros [|s ss] Hlen;
    cbn in Hlen; try lia.
  - constructor.
  - cbn. constructor; [by rewrite summarize_keeps_d|]. apply IH. lia.
Qed.

Lemma finalized_same_d (inertia : A) (ds : list D) :
  Forall2 (λ a b, dist_d a = dist_d b) ds
    (state_after (dist_from_summaries inertia) <$> ds).
Proof.
  induction ds as [|distribution ds IH]; [constructor|].
  cbn. constructor; [by rewrite from_summaries_keeps_d|]. exact IH.
Qed.

End block_delegation.

(** The distributions of the tutorial keep their [d]. *)
Lemma normal2_summarize_d {A : Type} `{Num A} (X : ndarray A) (w : option (list A))
    (self : NormalDistribution2.t) :
  NormalDistribution2.d (state_after (NormalDistribution2.summarize X w) self)
  = NormalDistribution2.d self.
Proof.
  destruct self as [m s p n v].
  unfold NormalDistribution2.summarize, NormalDistribution2.summaries_iadd.
  run_method.
  destruct (reshape_shape0 X) as [x|]; [|done]. run_method.
  destruct (np_dot x _) as [xw|]; [|done]. run_method.
  destruct (np_dot (np_square x) _) as [x2w|]; done.
Qed.

#[global] Instance NormalDistribution2_FixedDimension {A : Type} `{Num A}
    (norm_logpdf : A → A → A → A) :
  @FixedDimension A _ (NormalDistribution2_Distribution norm_logpdf).
Proof.
  split.
  - intros X w self. apply normal2_summarize_d.
  - intros inertia self. cbn. unfold state_after.
    by rewrite normal2_from_summaries.
Qed.

#[global] Instance StudentTDistribution_FixedDimension {A : Type} `{Num A}
    (t_logpdf : A → A → A → A → A) :
  @FixedDimension A _ (StudentTDistribution_Distribution t_logpdf).
Proof.
  split.
  - intros X w self.
    exact (proj2 (student_summarize_frame X w self)).
  - intros inertia self. cbn. unfold state_after.
    by rewrite student_from_summaries.
Qed.

(** A block has no statistics of its own: its methods change its
    components and nothing else. *)
Lemma block_methods_keep_d {A D : Type} `{Num A} `{Distribution A D}
    (X : ndarray A) (w : option (list A)) (inertia : A)
    (self : BlockGaussianDistribution.t) :
  BlockGaussianDistribution.d
    (state_after (BlockGaussianDistribution.summarize X w) self)
  = BlockGaussianDistribution.d self
  ∧ BlockGaussianDistribution.d
      (state_after (BlockGaussianDistribution.from_summaries inertia) self)
    = BlockGaussianDistribution.d self.
Proof.
  unfold BlockGaussianDistribution.summarize, BlockGaussianDistribution.from_summaries,
    BlockGaussianDistribution.on_distributions.
  run_method. split.
  - by destruct (for_each _ 0 _) as [[r|e] ds].
  - by destruct (for_each _ () _) as [[r|e] ds].
Qed.

#[global] Instance BlockGaussianDistribution_FixedDimension {A D : Type} `{Num A}
    `{Distribution A D} :
  @FixedDimension A (@BlockGaussianDistribution.t D) BlockGaussianDistribution_Distribution.
Proof.
  split.
  - intros X w self. exact (proj1 (block_methods_keep_d X w num_zero self)).
  - intros inertia self. exact (proj2 (block_methods_keep_d (Vec []) None inertia self)).
Qed.

(** C6.  A block over the components [ds], each of which keeps its [d],
    hands component [k] the columns [i_k .. i_k + d_k) where [i_0 = 0] and
    [i_(k+1) = i_k + d_k]: listed in order, the columns of the ranges are
    [0, 1, .., d - 1], each once, and the slices of a row of length [d] put
    end to end are the row.  When every component answers its columns with
    one log-probability per row, [log_probability] returns, row by row, the
    sum of the components' answers; [summarize] and [from_summaries] are
    the components' own, each on its columns, and the block keeps nothing
    but its components and [d].  The ranges are the same after either
    method as at construction. *)
Theorem block_delegates_to_components {A D : Type} `{Num A} `{FixedDimension A D}
    (ds : list D) (rows : list (list A)) (w : option (list A)) (inertia : A)
    (lps : list (list A)) :
  let self := BlockGaussianDistribution.init ds in
  Forall2 (λ (c : D * (nat * nat)) lp,
      dist_log_probability c.1 (Mat (slice_cols rows c.2.1 c.2.2)) = Val (Vec lp)
      ∧ length lp = length rows)
    (zip ds (slices ds)) lps →
  Forall (λ c : D * (nat * nat),
      (dist_summarize (Mat (slice_cols rows c.2.1 c.2.2)) w c.1).1 = Val ())
    (zip ds (slices ds)) →
  Forall (λ distribution, (dist_from_summaries inertia distribution).1 = Val ()) ds →
  concat ((λ s : nat * nat, seq s.1 (s.2 - s.1)) <$> slices ds)
  = seq 0 (BlockGaussianDistribution.d self)
  ∧ (∀ row : list A, length row = BlockGaussianDistribution.d self →
       concat ((λ s : nat * nat, take (s.2 - s.1) (drop s.1 row)) <$> slices ds) = row)
  ∧ BlockGaussianDistribution.log_probability self (Mat rows)
    = Val (Vec (sum_of_log_probabilities (length rows) lps))
  ∧ BlockGaussianDistribution.summarize (Mat rows) w self
    = (Val (),
       BlockGaussianDistribution.mk
         (zip_with (λ distribution (s : nat * nat),
              state_after (dist_summarize (Mat (slice_cols rows s.1 s.2)) w) distribution)
            ds (slices ds))
         (BlockGaussianDistribution.d self))
  ∧ BlockGaussianDistribution.from_summaries inertia self
    = (Val (),
       BlockGaussianDistribution.mk
         (state_after (dist_from_summaries inertia) <$> ds)
         (BlockGaussianDistribution.d self))
  ∧ slices (BlockGaussianDistribution.distributions
              (state_after (BlockGaussianDistribution.summarize (Mat rows) w) self))
    = slices ds
  ∧ slices (BlockGaussianDistribution.distributions
              (state_after (BlockGaussianDistribution.from_summaries inertia) self))
    = slices ds.
Proof.
  cbv zeta. intros Hlps Hsum Hfrom. unfold slices in *. split_and!.
  - apply slices_from_columns.
  - intros row Hrow. rewrite slices_from_take_drop.
    cbn in Hrow. rewrite drop_0, take_ge; [done|lia].
  - unfold BlockGaussianDistribution.log_probability. cbn [BlockGaussianDistribution.distributions BlockGaussianDistribution.init shape0].
    rewrite (log_probability_loop_returns rows ds lps) by (done || apply length_replicate).
    cbn [fmap result_fmap]. do 2 f_equal.
    apply foldl_zip_with_add_zeros.
    eapply Forall2_Forall_r; [exact Hlps|].
    apply Forall_forall. by intros c _ lp [_ ?].
  - unfold BlockGaussianDistribution.summarize, BlockGaussianDistribution.on_distributions.
    run_method. cbn [BlockGaussianDistribution.distributions BlockGaussianDistribution.init].
    by rewrite summarize_loop_returns.
  - unfold BlockGaussianDistribution.from_summaries, BlockGaussianDistribution.on_distributions.
    cbn [BlockGaussianDistribution.distributions BlockGaussianDistribution.init].
    by rewrite from_summaries_loop_returns.
  - unfold state_after, BlockGaussianDistribution.summarize,
      BlockGaussianDistribution.on_distributions.
    run_method. cbn [BlockGaussianDistribution.distributions BlockGaussianDistribution.init].
    rewrite summarize_loop_returns by done. cbn [snd BlockGaussianDistribution.distributions].
    symmetry. apply slices_from_same_d, summarized_same_d, slices_from_length.
  - unfold state_after, BlockGaussianDistribution.from_summaries,
      BlockGaussianDistribution.on_distributions.
    cbn [BlockGaussianDistribution.distributions BlockGaussianDistribution.init].
    rewrite from_summaries_loop_returns by done. cbn [snd BlockGaussianDistribution.distributions].
    symmetry. apply slices_from_same_d, finalized_same_d.
Qed.

Lemma ColumnNormal_FixedDimension {A : Type} `{Num A} (norm_logpdf : A → A → A → A) :
  @FixedDimension A _ (ColumnNormal_Distribution norm_logpdf).
Proof.
  split.
  - intros X w self. apply normal2_summarize_d.
  - intros inertia self. cbn. unfold state_after.
    by rewrite normal2_from_summaries.
Qed.

(** A block of [NormalDistribution2] objects as they are written cannot
    add up their answers: each is a column [(n, 1)], and numpy adds no
    matrix into the vector [numpy.zeros(n)] in place. *)
Example block_of_normal2_log_probability_raises :
  @BlockGaussianDistribution.log_probability R _ R_Num
    (NormalDistribution2_Distribution R_norm_logpdf)
    (@BlockGaussianDistribution.init R _ (NormalDistribution2_Distribution R_norm_logpdf)
       [NormalDistribution2.init 0%R 1%R; NormalDistribution2.init 5%R 1%R])
    (Mat [[0%R; 5%R]])
  = Exc ValueError.
Proof. reflexivity. Qed.

Lemma block_delegates_to_components_witness :
  let ds := [NormalDistribution2.init 0%R 1%R; NormalDistribution2.init 5%R 1%R] in
  let rows := [[0%R; 5%R]; [1%R; 4%R]] in
  @BlockGaussianDistribution.log_probability R _ R_Num
    (ColumnNormal_Distribution R_norm_logpdf)
    (@BlockGaussianDistribution.init R _ (ColumnNormal_Distribution R_norm_logpdf) ds)
    (Mat rows)
  = Val (Vec (sum_of_log_probabilities 2
      [[R_norm_logpdf 0 0 1; R_norm_logpdf 1 0 1];
       [R_norm_logpdf 5 5 1; R_norm_logpdf 4 5 1]])).
Proof.
  refine (proj1 (proj2 (proj2
    (@block_delegates_to_components R _ R_Num
       (ColumnNormal_Distribution R_norm_logpdf)
       (ColumnNormal_FixedDimension R_norm_logpdf)
       [NormalDistribution2.init 0%R 1%R; NormalDistribution2.init 5%R 1%R]
       [[0%R; 5%R]; [1%R; 4%R]] None 0%R
       [[R_norm_logpdf 0 0 1; R_norm_logpdf 1 0 1];
        [R_norm_logpdf 5 5 1; R_norm_logpdf 4 5 1]] _ _ _)))).
  - repeat constructor.
  - repeat constructor.
  - repeat constructor.
Defined.

(** ** DiscreteDistribution *)

(** The keys of the constructor's dictionary are the symbols of the map. *)
Lemma discrete_keymap_None {A : Type} (characters : gmap string A) (symbol : string) :
  characters !! symbol = None →
  DiscreteDistribution.keymap (DiscreteDistribution.init characters) !! symbol = None.
Proof.
  intros Hnone. cbn. apply not_elem_of_list_to_map_1.
  intros Hin. apply list_elem_of_fmap in Hin as ([k i] & -> & Hin).
  apply elem_of_lookup_imap_1 in Hin as (j & [k' a] & Heq & Hj).
  injection Heq as -> ->. cbn in *.
  apply list_elem_of_lookup_2, elem_of_map_to_list in Hj. congruence.
Qed.

(** A key of the dictionary has the probability the dictionary gives
    it. *)
Lemma discrete_seen_symbol {A : Type} `{Num A} (characters : gmap string A)
    (symbol : string) (p : A) :
  characters !! symbol = Some p →
  DiscreteDistribution.probability (DiscreteDistribution.init characters) symbol
  = Val p.
Proof.
  intros Hsome. apply elem_of_map_to_list, list_elem_of_lookup_1 in Hsome as [i Hi].
  unfold DiscreteDistribution.probability, DiscreteDistribution.init.
  cbn [DiscreteDistribution.keymap DiscreteDistribution.dist].
  set (items := map_to_list characters) in *.
  assert ((imap (λ i (item : string * A), (item.1, i)) items).*1 = items.*1) as Hkeys.
  { apply list_eq. intros j. rewrite !list_lookup_fmap, list_lookup_imap.
    by destruct (items !! j). }
  erewrite elem_of_list_to_map_1.
  - by rewrite list_lookup_fmap, Hi.
  - rewrite Hkeys. apply NoDup_fst_map_to_list.
  - apply elem_of_lookup_imap. exists i, (symbol, p). done.
Qed.

(** C7.  For a symbol that is not a key of the distribution's map,
    [probability] returns exactly zero and [log_probability] returns minus
    infinity; neither raises.  This holds of any object, and of the one the
    constructor builds from a dictionary without that key. *)
Theorem discrete_unseen_symbol {A : Type} `{Num A} (log : A → A) (neg_inf : A)
    (self : DiscreteDistribution.t) (characters : gmap string A) (symbol : string) :
  DiscreteDistribution.keymap self !! symbol = None →
  characters !! symbol = None →
  (DiscreteDistribution.probability self symbol = Val num_zero
   ∧ DiscreteDistribution.log_probability log neg_inf self symbol = Val neg_inf)
  ∧ (DiscreteDistribution.probability (DiscreteDistribution.init characters) symbol
     = Val num_zero
     ∧ DiscreteDistribution.log_probability log neg_inf
         (DiscreteDistribution.init characters) symbol
       = Val neg_inf).
Proof.
  intros Hself Hchars.
  pose proof (discrete_keymap_None characters symbol Hchars) as Hinit.
  unfold DiscreteDistribution.probability, DiscreteDistribution.log_probability.
  by rewrite Hself, Hinit.
Qed.

(** [DiscreteDistribution({'A': 0.1, 'C': 0.25, 'G': 0.5, 'T': 0.15})]
    asked for ['?'], in binary64. *)
Lemma discrete_unseen_symbol_witness :
  let characters : gmap string float :=
    {[ "A" := 0.1%float; "C" := 0.25%float; "G" := 0.5%float; "T" := 0.15%float ]} in
  DiscreteDistribution.probability (DiscreteDistribution.init characters) "?"
  = Val 0%float
  ∧ ∀ log : float → float,
      DiscreteDistribution.log_probability log neg_infinity
        (DiscreteDistribution.init characters) "?"
      = Val neg_infinity.
Proof.
  cbv zeta. split.
  - exact (proj1 (proj2 (discrete_unseen_symbol (λ x, x) neg_infinity
      (DiscreteDistribution.mk ∅ [])
      {[ "A" := 0.1%float; "C" := 0.25%float; "G" := 0.5%float; "T" := 0.15%float ]}
      "?" ltac:(apply lookup_empty) ltac:(vm_compute; reflexivity)))).
  - intros log.
    exact (proj2 (proj2 (discrete_unseen_symbol log neg_infinity
      (DiscreteDistribution.mk ∅ [])
      {[ "A" := 0.1%float; "C" := 0.25%float; "G" := 0.5%float; "T" := 0.15%float ]}
      "?" ltac:(apply lookup_empty) ltac:(vm_compute; reflexivity)))).
Defined.

(** ** Data-parallel summarize, merge and update *)

Section parallel.
Context {Shard B : Type}.
Implicit Types (job : Shard → B) (shards : list Shard) (order : list nat).

Lemma omap_seq_lookup (f : nat → option B) (l : list B) (i : nat) :
  (∀ k, k < length l → f (i + k) = l !! k) →
  omap f (seq i (length l)) = l.
Proof.
  revert i. induction l as [|x l IH]; intros i Hf; [done|].
  cbn [length seq omap list_omap].
  change (list_omap ?f ?l) with (omap f l).
  specialize (Hf 0 ltac:(cbn; lia)) as Hx. rewrite Nat.add_0_r in Hx. rewrite Hx.
  cbn. f_equal. apply IH. intros k Hk.
  replace (S i + k) with (i + S k) by lia. apply Hf. cbn. lia.
Qed.

Lemma arrivals_keys job shards order :
  (Parallel.arrivals job shards order).*1 ⊆ order.
Proof.
  intros k Hk. apply list_elem_of_fmap in Hk as ([k' b] & -> & Hin).
  apply list_elem_of_omap in Hin as (j & Hj & Hsome).
  destruct (shards !! j); [|done]. cbn in Hsome. by injection Hsome as -> _.
Qed.

Lemma arrivals_NoDup job shards order :
  NoDup order → NoDup (Parallel.arrivals job shards order).*1.
Proof.
  induction 1 as [|k order Hk _ IH]; [constructor|].
  unfold Parallel.arrivals in *. cbn [omap list_omap].
  change (list_omap ?f ?l) with (omap f l).
  destruct (shards !! k) as [shard|]; [|exact IH].
  cbn. constructor; [|exact IH].
  intros Hin. apply Hk. by apply (arrivals_keys job shards order).
Qed.

Lemma arrivals_elem job shards order k shard :
  k ∈ order → shards !! k = Some shard →
  (k, job shard) ∈ Parallel.arrivals job shards order.
Proof.
  intros Hk Hshard. apply list_elem_of_omap. exists k. split; [done|].
  by rewrite Hshard.
Qed.

(** Whatever the order of arrival, the results stand by shard index. *)
Lemma by_shard_index_arrivals job shards order :
  order ≡ₚ seq 0 (length shards) →
  Parallel.by_shard_index (length shards) (Parallel.arrivals job shards order)
  = job <$> shards.
Proof.
  intros Hperm. unfold Parallel.by_shard_index.
  rewrite <- (length_fmap job shards). apply omap_seq_lookup.
  intros k Hk. rewrite length_fmap in Hk. rewrite Nat.add_0_l, list_lookup_fmap.
  destruct (lookup_lt_is_Some_2 shards k Hk) as [shard Hshard].
  rewrite Hshard. cbn.
  apply elem_of_list_to_map_1.
  - apply arrivals_NoDup. rewrite Hperm. apply NoDup_seq.
  - apply arrivals_elem; [|done]. rewrite Hperm. apply elem_of_seq. lia.
Qed.

End parallel.

(** C9.  With the shards fixed, the data-parallel cycle gives the same
    model, and [predict_proba] the same rows, whatever the order in which
    the workers finish: the results are taken by shard index, so each run
    adds the same accumulators in the same order (that of the shards) and
    runs the one [from_summaries] on the same sum.  Equality here is
    equality of every number; with binary64 numbers, of every bit. *)
Theorem parallel_results_do_not_depend_on_arrival
    {Model Shard Acc Out : Type}
    (summarize_shard : Model → Shard → Acc) (predict_shard : Model → Shard → list Out)
    (acc_add : Acc → Acc → Acc) (from_summaries : Acc → Model → Model)
    (acc : Acc) (model : Model) (shards : list Shard) (run1 run2 : list nat) :
  run1 ≡ₚ seq 0 (length shards) →
  run2 ≡ₚ seq 0 (length shards) →
  Parallel.fit_step summarize_shard acc_add from_summaries acc model shards run1
  = Parallel.fit_step summarize_shard acc_add from_summaries acc model shards run2
  ∧ Parallel.fit_step summarize_shard acc_add from_summaries acc model shards run1
    = from_summaries (foldl acc_add acc (summarize_shard model <$> shards)) model
  ∧ Parallel.predict_proba predict_shard model shards run1
    = Parallel.predict_proba predict_shard model shards run2
  ∧ Parallel.predict_proba predict_shard model shards run1
    = concat (predict_shard model <$> shards).
Proof.
  intros H1 H2. unfold Parallel.fit_step, Parallel.predict_proba.
  by rewrite !by_shard_index_arrivals.
Qed.

Lemma parallel_results_do_not_depend_on_arrival_witness :
  let fit := Parallel.fit_step normal2_summarize_shard (vzip_with num_add)
               normal2_finalize (vreplicate 3 0%float)
               (NormalDistribution2.init 0%float 1%float) three_shards in
  fit [2; 0; 1] = fit [0; 1; 2].
Proof.
  exact (proj1 (parallel_results_do_not_depend_on_arrival
    normal2_summarize_shard (normal2_predict_shard float_norm_exponent)
    (vzip_with num_add) normal2_finalize (vreplicate 3 0%float)
    (NormalDistribution2.init 0%float 1%float) three_shards [2; 0; 1] [0; 1; 2]
    ltac:(vm_compute; apply (Permutation_cons_append [0; 1] 2))
    ltac:(reflexivity))).
Defined.

(** Were the accumulators added as they arrive, two runs over the same
    shards could end in different parameters. *)
Example merge_by_arrival_depends_on_run :
  let fit := Parallel.fit_step_by_arrival normal2_summarize_shard
               (vzip_with num_add) normal2_finalize (vreplicate 3 0%float)
               (NormalDistribution2.init 0%float 1%float) three_shards in
  NormalDistribution2.mu (fit [0; 1; 2]) ≠ NormalDistribution2.mu (fit [2; 1; 0]).
Proof. vm_compute. discriminate. Qed.

(** ** The EM loop of a mixture *)

Section em_monotone.
Local Open Scope R_scope.
Import EM.

Lemma total_exp_pos (a : list R) : a ≠ [] → 0 < total (exp <$> a).
Proof.
  destruct a as [|x a]; [done|]. intros _. cbn.
  assert (0 <= total (exp <$> a)) as Hnn.
  { induction a as [|y a IH]; cbn; [lra|].
    pose proof (exp_pos y). unfold total in IH. lra. }
  pose proof (exp_pos x). unfold total in Hnn. lra.
Qed.

Lemma ln_le_mono (x y : R) : 0 < x → x <= y → ln x <= ln y.
Proof.
  intros Hx [Hlt | -> ]; [|lra]. left. by apply ln_increasing.
Qed.

(** The tangent of [exp] at [m], summed with weights. *)
Lemma weighted_exp_tangent (m : R) (l : list (R * R)) :
  Forall (λ p, 0 <= p.1) l →
  exp m * (total l.*1 + total ((λ p, p.1 * p.2) <$> l) - m * total l.*1)
  <= total ((λ p, p.1 * exp p.2) <$> l).
Proof.
  induction 1 as [|[r t] l Hr _ IH]; cbn in *; [lra|].
  unfold total in *.
  pose proof (exp_ineq1_le (t - m)) as Htan.
  pose proof (exp_pos m) as Hm.
  assert (exp t = exp m * exp (t - m)) as ->.
  { rewrite <- exp_plus. f_equal. lra. }
  assert (r * (exp m * (1 + (t - m))) <= r * (exp m * exp (t - m))) by
    (apply Rmult_le_compat_l; [done|]; apply Rmult_le_compat_l; lra).
  nra.
Qed.

(** Jensen's inequality for [exp] and weights that sum to one. *)
Lemma jensen_exp (l : list (R * R)) :
  Forall (λ p, 0 <= p.1) l → total l.*1 = 1 →
  exp (total ((λ p, p.1 * p.2) <$> l)) <= total ((λ p, p.1 * exp p.2) <$> l).
Proof.
  intros Hnn Hone.
  pose proof (weighted_exp_tangent (total ((λ p, p.1 * p.2) <$> l)) l Hnn) as Ht.
  rewrite Hone in Ht.
  replace (1 + total ((λ p : R * R, p.1 * p.2) <$> l)
           - total ((λ p : R * R, p.1 * p.2) <$> l) * 1) with 1 in Ht by lra.
  lra.
Qed.

End em_monotone.

Section em_sample.
Local Open Scope R_scope.
Import EM.

Lemma gain_terms_weights (c : R) (a a' : list R) :
  length a = length a' →
  (gain_terms c a a').*1 = (λ v, exp (v - c)) <$> a.
Proof.
  revert a'. induction a as [|v a IH]; intros [|v' a'] Hlen; try done.
  cbn in *. f_equal. apply IH. lia.
Qed.

Lemma gain_terms_nonneg (c : R) (a a' : list R) :
  Forall (λ p, 0 <= p.1) (gain_terms c a a').
Proof.
  revert a'. induction a as [|v a IH]; intros [|v' a']; cbn; try constructor.
  - cbn. left. apply exp_pos.
  - apply IH.
Qed.

Lemma gain_terms_mean (c : R) (a a' : list R) :
  length a = length a' →
  total ((λ p, p.1 * p.2) <$> gain_terms c a a')
  = total (zip_with Rmult ((λ v, exp (v - c)) <$> a) a')
    - total (zip_with Rmult ((λ v, exp (v - c)) <$> a) a).
Proof.
  unfold total, gain_terms.
  revert a'. induction a as [|v a IH]; intros [|v' a'] Hlen; try done.
  - cbn. lra.
  - cbn in *. rewrite IH by lia. lra.
Qed.

Lemma gain_terms_exp (c : R) (a a' : list R) :
  length a = length a' →
  total ((λ p, p.1 * exp p.2) <$> gain_terms c a a')
  = total (exp <$> a') * exp (- c).
Proof.
  unfold total, gain_terms.
  revert a'. induction a as [|v a IH]; intros [|v' a'] Hlen; try done.
  - cbn. lra.
  - cbn in *. rewrite IH by lia.
    rewrite <- exp_plus. replace (v - c + (v' - v)) with (v' + - c) by lra.
    rewrite exp_plus. lra.
Qed.

Lemma total_exp_shift (c : R) (a : list R) :
  total ((λ v, exp (v - c)) <$> a) = total (exp <$> a) * exp (- c).
Proof.
  unfold total. induction a as [|v a IH]; cbn; [lra|].
  rewrite IH. unfold Rminus. rewrite exp_plus. lra.
Qed.

(** What one sample gains in log-likelihood is at least what it gains in
    expected log-likelihood. *)
Lemma logsumexp_gain (a a' : list R) :
  length a = length a' →
  total (zip_with Rmult ((λ v, exp (v - logsumexp a)) <$> a) a')
  - total (zip_with Rmult ((λ v, exp (v - logsumexp a)) <$> a) a)
  <= logsumexp a' - logsumexp a.
Proof.
  intros Hlen. destruct (decide (a = [])) as [-> | Hne].
  - destruct a'; [|done]. cbn. lra.
  - assert (a' ≠ []) as Hne' by (intros ->; by destruct a).
    pose proof (total_exp_pos a Hne) as HS.
    pose proof (total_exp_pos a' Hne') as HS'.
    unfold logsumexp in *.
    set (S := total (exp <$> a)) in *. set (S' := total (exp <$> a')) in *.
    rewrite <- (gain_terms_mean (ln S) a a') by done.
    pose proof (jensen_exp (gain_terms (ln S) a a')
                  (gain_terms_nonneg _ _ _)) as HJ.
    rewrite gain_terms_weights, total_exp_shift, gain_terms_exp in HJ by done.
    fold S S' in HJ. rewrite exp_Ropp, exp_ln in HJ by done.
    specialize (HJ ltac:(by field; lra)).
    set (m := total (_ <$> gain_terms (ln S) a a')) in *.
    assert (m = ln (exp m)) as -> by (by rewrite ln_exp).
    replace (ln S' - ln S) with (ln (S' * / S)).
    + apply ln_le_mono; [apply exp_pos|done].
    + rewrite ln_mult, ln_Rinv; [lra|done..|]. by apply Rinv_0_lt_compat.
Qed.

End em_sample.

Section em_step.
Local Open Scope R_scope.
Import EM.
Context {D : Type} (log_probability : D → R → R) (fit : list (R * R) → D → D).

Lemma joint_log_probability_length (model : EM.t) (x : R) :
  length (joint_log_probability log_probability model x)
  = (length (weights model) `min` length (distributions model))%nat.
Proof. unfold joint_log_probability. by rewrite length_zip_with. Qed.

(** The gain in log-likelihood of any model with as many components over
    the old one is at least its gain in expected log-likelihood. *)
Lemma log_likelihood_gain (old new : EM.t) (X : list R) :
  length (weights new) = length (weights old) →
  length (distributions new) = length (distributions old) →
  expected_log_likelihood log_probability old new X
  - expected_log_likelihood log_probability old old X
  <= log_likelihood log_probability new X - log_likelihood log_probability old X.
Proof.
  intros Hw Hd. unfold expected_log_likelihood, log_likelihood, total.
  induction X as [|x X IH]; cbn; [lra|].
  pose proof (logsumexp_gain (joint_log_probability log_probability old x)
                (joint_log_probability log_probability new x)) as Hx.
  rewrite !joint_log_probability_length, Hw, Hd in Hx. specialize (Hx eq_refl).
  unfold responsibilities, total in *. lra.
Qed.

Lemma em_step_lengths (model : EM.t) (X : list R) :
  length (weights (em_step log_probability fit model X)) = length (weights model)
  ∧ length (distributions (em_step log_probability fit model X))
    = length (distributions model).
Proof. cbn. by rewrite !length_imap. Qed.

End em_step.

Section em_sums.
Local Open Scope R_scope.
Import EM.

Lemma total_cons (x : R) (l : list R) : total (x :: l) = x + total l.
Proof. reflexivity. Qed.

Lemma total_fmap_const {B : Type} (c : R) (l : list B) :
  total ((λ _, c) <$> l) = INR (length l) * c.
Proof.
  induction l as [|b l IH]; [cbn; lra|].
  rewrite fmap_cons, total_cons, IH. cbn [length]. rewrite S_INR. lra.
Qed.

Lemma total_fmap_weighted {B : Type} (c : R) (f h : B → R) (l : list B) :
  total ((λ x, f x * (c + h x)) <$> l)
  = c * total (f <$> l) + total ((λ x, f x * h x) <$> l).
Proof.
  induction l as [|b l IH]; [cbn; lra|].
  rewrite !fmap_cons, !total_cons, IH. ring.
Qed.

Lemma total_fmap_pos {B : Type} (f : B → R) (l : list B) :
  l ≠ [] → (∀ x, 0 < f x) → 0 < total (f <$> l).
Proof.
  intros Hl Hf. destruct l as [|b l]; [done|]. clear Hl.
  revert b. induction l as [|b' l IH]; intros b.
  - cbn. pose proof (Hf b). lra.
  - rewrite fmap_cons, total_cons. pose proof (Hf b). pose proof (IH b'). lra.
Qed.

Lemma total_imap_zero {B : Type} (l : list B) : total (imap (λ _ _, 0) l) = 0.
Proof.
  change (imap (λ _ _, 0) l) with (imap (const (λ _ : B, 0)) l).
  rewrite imap_const. induction l as [|b l IH]; [done|].
  rewrite fmap_cons, total_cons, IH. lra.
Qed.

Lemma total_imap_plus {B : Type} (f g : nat → B → R) (l : list B) :
  total (imap (λ k b, f k b + g k b) l) = total (imap f l) + total (imap g l).
Proof.
  revert f g. induction l as [|b l IH]; intros f g; [cbn; lra|].
  rewrite !imap_cons, !total_cons.
  change ((λ k b, f k b + g k b) ∘ S) with (λ k b, (f ∘ S) k b + (g ∘ S) k b).
  rewrite IH. lra.
Qed.

Lemma total_imap_le {B : Type} (f g : nat → B → R) (l : list B) :
  (∀ k b, l !! k = Some b → f k b <= g k b) →
  total (imap f l) <= total (imap g l).
Proof.
  revert f g. induction l as [|b l IH]; intros f g Hfg; [cbn; lra|].
  rewrite !imap_cons, !total_cons.
  pose proof (Hfg 0%nat b eq_refl).
  assert (total (imap (f ∘ S) l) <= total (imap (g ∘ S) l)).
  { apply IH. intros k b' Hk. apply (Hfg (S k)), Hk. }
  lra.
Qed.

Lemma total_fmap_scale {B : Type} (c : R) (f : B → R) (l : list B) :
  total ((λ x, c * f x) <$> l) = c * total (f <$> l).
Proof.
  induction l as [|b l IH]; [cbn; lra|].
  rewrite !fmap_cons, !total_cons, IH. lra.
Qed.

Lemma total_zip_with_ones {B : Type} (row : list R) (l : list B) :
  length row = length l →
  total (zip_with Rmult row ((λ _, 1) <$> l)) = total row.
Proof.
  revert l. induction row as [|r row IH]; intros [|b l] Hlen; try done.
  rewrite fmap_cons. cbn [zip_with]. rewrite !total_cons, IH by (cbn in Hlen; lia).
  lra.
Qed.

(** A row of weights against the values of the components, component by
    component. *)
Lemma total_zip_with_imap {B : Type} (u : B → R) (row : list R) (l : list B) :
  length row = length l →
  total (zip_with Rmult row (u <$> l))
  = total (imap (λ k b, default 0 (row !! k) * u b) l).
Proof.
  revert row. induction l as [|b l IH]; intros [|r row] Hlen; try done.
  rewrite fmap_cons, imap_cons. cbn [zip_with]. rewrite !total_cons.
  change ((λ k b, default 0 ((r :: row) !! k) * u b) ∘ S)
    with (λ k b, default 0 (row !! k) * u b).
  rewrite <- IH by (cbn in Hlen; lia). reflexivity.
Qed.

(** A sum over the samples of sums over the components is the sum over the
    components of sums over the samples. *)
Lemma total_samples_components {B : Type} (rows : R → list R) (g : R → B → R)
    (l : list B) (X : list R) :
  (∀ x, length (rows x) = length l) →
  total ((λ x, total (zip_with Rmult (rows x) (g x <$> l))) <$> X)
  = total (imap (λ k b, total ((λ x, default 0 (rows x !! k) * g x b) <$> X)) l).
Proof.
  intros Hrows. induction X as [|x X IH].
  - cbn [fmap list_fmap]. symmetry. apply (total_imap_zero l).
  - rewrite fmap_cons, total_cons, IH, total_zip_with_imap by apply Hrows.
    rewrite <- total_imap_plus. reflexivity.
Qed.

Lemma zip_imap {B C B' C' : Type} (f : nat → B → B') (g : nat → C → C')
    (l : list B) (k : list C) :
  zip (imap f l) (imap g k) = imap (λ i p, (f i p.1, g i p.2)) (zip l k).
Proof.
  apply list_eq. intros i.
  rewrite lookup_zip_with, !list_lookup_imap, lookup_zip_with.
  by destruct (l !! i), (k !! i).
Qed.

Lemma imap_imap {B C E : Type} (f : nat → C → E) (g : nat → B → C) (l : list B) :
  imap f (imap g l) = imap (λ i b, f i (g i b)) l.
Proof.
  apply list_eq. intros i. rewrite !list_lookup_imap. by destruct (l !! i).
Qed.

(** Gibbs' inequality, one term: the share [n / N] of a component is the
    prior that makes the most of [n]. *)
Lemma gibbs_term (n N prior : R) :
  0 < n → 0 < N → 0 < prior →
  n - N * prior <= n * (ln (n / N) - ln prior).
Proof.
  intros Hn HN Hprior.
  assert (Hz : 0 < N * prior / n).
  { apply Rdiv_lt_0_compat; [|done]. by apply Rmult_lt_0_compat. }
  pose proof (exp_ineq1_le (ln (N * prior / n))) as Hexp.
  rewrite exp_ln in Hexp by done.
  unfold Rdiv in Hexp. rewrite !ln_mult, ln_Rinv in Hexp;
    [|done|done|done|by apply Rmult_lt_0_compat|by apply Rinv_0_lt_compat].
  unfold Rdiv. rewrite ln_mult, ln_Rinv; [|done|done|by apply Rinv_0_lt_compat].
  assert (n * (N * prior * / n) = N * prior) by (field; lra).
  assert (n * (1 + (ln N + ln prior + - ln n)) <= n * (N * prior * / n))
    by (apply Rmult_le_compat_l; lra).
  lra.
Qed.

End em_sums.

Section em_update.
Local Open Scope R_scope.
Import EM.
Context {D : Type} (log_probability : D → R → R) (fit : list (R * R) → D → D).

Lemma length_responsibilities (model : EM.t) (x : R) :
  length (responsibilities log_probability model x)
  = length (zip (weights model) (distributions model)).
Proof.
  unfold responsibilities, joint_log_probability.
  by rewrite length_fmap, !length_zip_with.
Qed.

(** The responsibilities of a sample sum to one. *)
Lemma total_responsibilities (model : EM.t) (x : R) :
  zip (weights model) (distributions model) ≠ [] →
  total (responsibilities log_probability model x) = 1.
Proof.
  intros Hne. unfold responsibilities.
  set (a := joint_log_probability log_probability model x).
  assert (Ha : a ≠ []).
  { unfold a, joint_log_probability. rewrite zip_with_zip.
    intros Hnil. apply fmap_nil_inv in Hnil. done. }
  rewrite total_exp_shift. unfold logsumexp.
  pose proof (total_exp_pos a Ha).
  rewrite exp_Ropp, exp_ln by done. field. lra.
Qed.

(** Each of them is positive. *)
Lemma responsibility_pos (model : EM.t) (x : R) (k : nat) :
  (k < length (zip (weights model) (distributions model)))%nat →
  0 < default 0 (responsibilities log_probability model x !! k).
Proof.
  intros Hk. rewrite <- (length_responsibilities model x) in Hk.
  destruct (lookup_lt_is_Some_2 _ _ Hk) as [r Hr]. rewrite Hr. cbn.
  unfold responsibilities in Hr. rewrite list_lookup_fmap in Hr.
  destruct (_ !! k); [|done]. cbn in Hr. injection Hr as <-. apply exp_pos.
Qed.

Lemma column_responsibilities (model : EM.t) (X : list R) (k : nat) :
  column k (responsibilities log_probability model <$> X)
  = (λ x, default 0 (responsibilities log_probability model x !! k)) <$> X.
Proof. unfold column. by rewrite <- list_fmap_compose. Qed.

(** The expected log-likelihood, component by component: the share of the
    component times the logarithm of its prior, and the log-likelihood of
    the data weighted by the component's responsibilities. *)
Lemma expected_log_likelihood_by_component (old new : EM.t) (X : list R) :
  length (zip (weights new) (distributions new))
  = length (zip (weights old) (distributions old)) →
  expected_log_likelihood log_probability old new X
  = total (imap (λ k (b : R * D),
        let r := column k (responsibilities log_probability old <$> X) in
        ln b.1 * total r + weighted_log_likelihood log_probability (zip X r) b.2)
      (zip (weights new) (distributions new))).
Proof.
  intros Hlen. unfold expected_log_likelihood.
  erewrite (list_fmap_ext _
    (λ x, total (zip_with Rmult (responsibilities log_probability old x)
                   ((λ b : R * D, ln b.1 + log_probability b.2 x)
                      <$> zip (weights new) (distributions new)))) X).
  2:{ intros _ x _. cbn beta. unfold joint_log_probability. do 2 f_equal.
      rewrite (zip_with_zip (λ prior distribution, ln prior + log_probability distribution x)).
      apply list_fmap_ext. by intros _ [prior distribution] _. }
  rewrite (total_samples_components
             (responsibilities log_probability old)
             (λ x (b : R * D), ln b.1 + log_probability b.2 x))
    by (intros x; by rewrite length_responsibilities).
  apply f_equal, imap_ext. intros k [prior d] _. cbv zeta. cbn [fst snd].
  rewrite column_responsibilities, total_fmap_weighted.
  unfold weighted_log_likelihood.
  rewrite zip_with_fmap_r, zip_with_diag, <- list_fmap_compose.
  reflexivity.
Qed.

(** The shares of the components sum to the number of samples. *)
Lemma total_shares (model : EM.t) (X : list R) :
  zip (weights model) (distributions model) ≠ [] →
  total (imap (λ k (_ : R * D),
           total (column k (responsibilities log_probability model <$> X)))
         (zip (weights model) (distributions model)))
  = INR (length X).
Proof.
  intros Hne.
  transitivity (total ((λ x,
    total (zip_with Rmult (responsibilities log_probability model x)
             ((λ _ : R * D, 1) <$> zip (weights model) (distributions model)))) <$> X)).
  - rewrite (total_samples_components (responsibilities log_probability model)
               (λ _ (_ : R * D), 1)) by apply length_responsibilities.
    apply f_equal, imap_ext. intros k b _. cbn beta.
    rewrite column_responsibilities. f_equal.
    apply list_fmap_ext. intros _ x _. lra.
  - erewrite (list_fmap_ext _ (λ _, 1) X).
    + rewrite total_fmap_const. lra.
    + intros _ x _. cbn beta.
      rewrite total_zip_with_ones by apply length_responsibilities.
      by apply total_responsibilities.
Qed.

End em_update.

(** C8, amended.  Across one iteration of the EM loop on fixed data the
    total log-likelihood of a mixture does not decrease, when the prior
    weights are positive and sum to one and the update of every component
    ([summarize] with its responsibilities as weights, then
    [from_summaries]) does not make the data so weighted less likely
    under the component than they were, as a weighted maximum-likelihood
    update does not.  The new priors need no assumption: the shares of the
    responsibilities are the priors that make the most of them. *)
Theorem em_step_log_likelihood_monotone {D : Type}
    (log_probability : D → R → R) (fit : list (R * R) → D → D)
    (model : EM.t) (X : list R) :
  length (EM.weights model) = length (EM.distributions model) →
  Forall (λ prior, (0 < prior)%R) (EM.weights model) →
  EM.total (EM.weights model) = 1%R →
  (∀ k distribution, EM.distributions model !! k = Some distribution →
     let b := zip X (EM.column k (EM.responsibilities log_probability model <$> X)) in
     (weighted_log_likelihood log_probability b distribution
      <= weighted_log_likelihood log_probability b (fit b distribution))%R) →
  (EM.log_likelihood log_probability model X
   <= EM.log_likelihood log_probability (EM.em_step log_probability fit model X) X)%R.
Proof.
  intros Hlen Hpos Hone Hfit.
  destruct (decide (X = [])) as [-> | HX]; [unfold EM.log_likelihood; cbn; lra|].
  destruct (em_step_lengths log_probability fit model X) as [Hw Hd].
  pose proof (log_likelihood_gain log_probability model
                (EM.em_step log_probability fit model X) X Hw Hd) as Hgain.
  enough (EM.expected_log_likelihood log_probability model model X
          <= EM.expected_log_likelihood log_probability model
               (EM.em_step log_probability fit model X) X)%R by lra.
  clear Hgain.
  set (l := zip (EM.weights model) (EM.distributions model)).
  assert (Hl : l ≠ []).
  { unfold l. destruct (EM.weights model) as [|prior ws].
    - cbn in Hone. lra.
    - destruct (EM.distributions model); [done|]. done. }
  assert (HN : (0 < INR (length X))%R).
  { apply lt_0_INR. destruct X; [done|]. cbn. lia. }
  rewrite !(expected_log_likelihood_by_component log_probability)
    by (by rewrite ?length_zip_with, ?Hw, ?Hd).
  unfold EM.em_step. cbn [EM.weights EM.distributions]. cbv zeta.
  rewrite zip_imap, imap_imap. fold l. cbn [fst snd].
  assert (Hzero : EM.total (imap (λ k (b : R * D),
      EM.total (EM.column k (EM.responsibilities log_probability model <$> X))
      + - INR (length X) * b.1)%R l) = 0%R).
  { rewrite total_imap_plus. unfold l.
    rewrite (total_shares log_probability model X Hl).
    change (imap (λ (_ : nat) (b : R * D), (- INR (length X) * b.1)%R) ?l')
      with (imap (const (λ b : R * D, (- INR (length X) * b.1)%R)) l').
    rewrite imap_const, (total_fmap_scale (- INR (length X)) fst).
    rewrite fst_zip by lia. rewrite Hone. lra. }
  match goal with |- (EM.total (imap ?f l) <= _)%R =>
    apply Rle_trans with (EM.total (imap (λ k (b : R * D),
      f k b
      + (EM.total (EM.column k (EM.responsibilities log_probability model <$> X))
         + - INR (length X) * b.1))%R l))
  end.
  { rewrite (total_imap_plus _ (λ k (b : R * D),
      EM.total (EM.column k (EM.responsibilities log_probability model <$> X))
      + - INR (length X) * b.1)%R), Hzero. lra. }
  clear Hzero. apply total_imap_le.
  intros k [prior distribution] Hk. cbn [fst snd].
  apply lookup_zip_with_Some in Hk as (prior' & distribution' & [= <- <-] & Hprior & Hdist).
  set (r := EM.column k (EM.responsibilities log_probability model <$> X)).
  assert (Hr : (0 < EM.total r)%R).
  { unfold r. rewrite column_responsibilities.
    apply total_fmap_pos; [done|]. intros x. apply responsibility_pos.
    fold l. unfold l. rewrite length_zip_with.
    apply lookup_lt_Some in Hprior, Hdist. lia. }
  assert (Hp : (0 < prior)%R).
  { eapply Forall_lookup_1 in Hpos; [|exact Hprior]. exact Hpos. }
  pose proof (gibbs_term (EM.total r) (INR (length X)) prior Hr HN Hp) as Hgibbs.
  pose proof (Hfit k distribution Hdist) as Hcomponent. cbv zeta in Hcomponent.
  fold r in Hcomponent. nra.
Qed.

(** ** Mixtures of the tutorial's distributions *)

Lemma student_log_probability_Vec (self : StudentTDistribution.t) (X : list R) :
  StudentTDistribution.log_probability R_t1_logpdf self (Vec X)
  = Vec (student_log_probability self <$> X).
Proof. reflexivity. Qed.

Lemma normal2_log_probability_Vec (self : NormalDistribution2.t) (X : list R) :
  NormalDistribution2.log_probability R_norm_logpdf self (Vec X)
  = Vec (normal2_log_probability self <$> X).
Proof. reflexivity. Qed.

Section two_equal_components.
Local Open Scope R_scope.
Import EM.
Context {D : Type} (log_probability : D → R → R).

Lemma logsumexp_two_halves (l : R) :
  logsumexp [ln (1 / 2) + l; ln (1 / 2) + l] = l.
Proof.
  unfold logsumexp, total. cbn. rewrite exp_plus, exp_ln by lra.
  replace (1 / 2 * exp l + (1 / 2 * exp l + 0)) with (exp l) by lra.
  apply ln_exp.
Qed.

(** Two components that give a sample the same log-probability and have
    the prior weight 1/2 each share the sample equally. *)
Lemma responsibilities_two_halves (d1 d2 : D) (x : R) :
  log_probability d1 x = log_probability d2 x →
  responsibilities log_probability (mk [d1; d2] [1 / 2; 1 / 2]) x = [1 / 2; 1 / 2].
Proof.
  intros Heq. unfold responsibilities, joint_log_probability. cbn.
  rewrite <- Heq, logsumexp_two_halves.
  replace (ln (1 / 2) + log_probability d1 x - log_probability d1 x)
    with (ln (1 / 2)) by lra.
  by rewrite exp_ln by lra.
Qed.

Lemma log_likelihood_two_halves (d1 d2 : D) (X : list R) :
  (∀ x, log_probability d1 x = log_probability d2 x) →
  log_likelihood log_probability (mk [d1; d2] [1 / 2; 1 / 2]) X
  = total (log_probability d1 <$> X).
Proof.
  intros Heq. unfold log_likelihood, joint_log_probability. cbn.
  f_equal. apply list_fmap_ext. intros _ x _.
  by rewrite <- Heq, logsumexp_two_halves.
Qed.

End two_equal_components.

Section student_mixture.
Local Open Scope R_scope.

Lemma cauchy_fit :
  student_fit [(0, 1 / 2); (0, 1 / 2); (0, 1 / 2); (0, 1 / 2); (5, 1 / 2)]
    (StudentTDistribution.init 0 1 1)
  = StudentTDistribution.mk 1 2 1 (1, 2) 1 [# 0; 0; 0].
Proof.
  unfold student_fit, state_after.
  rewrite student_summarize_weighted. cbn [snd].
  rewrite student_from_summaries. cbn [snd].
  cbn -[Rplus Rmult Rdiv Rminus R_sqrt.sqrt IZR].
  replace (0 + (0 + 1 / 2 + 1 / 2 + 1 / 2 + 1 / 2 + 1 / 2)) with (5 / 2) by lra.
  replace (0 + (0 + 0 * (1 / 2) + 0 * (1 / 2) + 0 * (1 / 2) + 0 * (1 / 2)
                + 5 * (1 / 2))) with (5 / 2) by lra.
  replace (0 + (0 + 0 * 0 * (1 / 2) + 0 * 0 * (1 / 2) + 0 * 0 * (1 / 2)
                + 0 * 0 * (1 / 2) + 5 * 5 * (1 / 2))) with (25 / 2) by lra.
  replace (25 / 2 / (5 / 2) - 5 / 2 * (5 / 2) / (5 / 2 * (5 / 2))) with (2 * 2)
    by (field; lra).
  rewrite sqrt_square by lra.
  replace (5 / 2 / (5 / 2)) with 1 by (field; lra).
  reflexivity.
Qed.

Lemma cauchy_mixture_em_step :
  EM.em_step student_log_probability student_fit cauchy_mixture cauchy_data
  = EM.mk [StudentTDistribution.mk 1 2 1 (1, 2) 1 [# 0; 0; 0];
           StudentTDistribution.mk 1 2 1 (1, 2) 1 [# 0; 0; 0]]
      [1 / 2; 1 / 2].
Proof.
  unfold EM.em_step, cauchy_mixture, cauchy_data.
  cbn [fmap list_fmap EM.distributions EM.weights].
  rewrite !responsibilities_two_halves by reflexivity.
  cbn [imap EM.column fmap list_fmap lookup list_lookup default from_option
       Datatypes.id zip_with length compose].
  rewrite cauchy_fit. f_equal. unfold EM.total. cbn [foldr INR].
  f_equal; [|f_equal]; lra.
Qed.

(** C8, on the tutorial's [StudentTDistribution]: an iteration of the EM
    loop that lowers the total log-likelihood.  [from_summaries] moves the
    two Cauchy components from location 0, scale 1 to the mean 1 and the
    standard deviation 2 of the data, under which the data are less
    likely. *)
Lemma em_step_student_decreases :
  EM.log_likelihood student_log_probability
    (EM.em_step student_log_probability student_fit cauchy_mixture cauchy_data)
    cauchy_data
  < EM.log_likelihood student_log_probability cauchy_mixture cauchy_data.
Proof.
  rewrite cauchy_mixture_em_step. unfold cauchy_mixture.
  rewrite !log_likelihood_two_halves by reflexivity.
  unfold cauchy_data, EM.total, student_log_probability, R_t1_logpdf.
  cbn [fmap list_fmap foldr StudentTDistribution.df StudentTDistribution.mu
       StudentTDistribution.std StudentTDistribution.init].
  replace (1 + (0 - 1) / 2 * ((0 - 1) / 2)) with (5 / 4) by lra.
  replace (1 + (5 - 1) / 2 * ((5 - 1) / 2)) with 5 by lra.
  replace (1 + (0 - 0) / 1 * ((0 - 0) / 1)) with 1 by lra.
  replace (1 + (5 - 0) / 1 * ((5 - 0) / 1)) with 26 by lra.
  rewrite ln_1.
  assert (0 < ln (5 / 4)) by (rewrite <- ln_1; apply ln_increasing; lra).
  assert (0 < ln 5) by (rewrite <- ln_1; apply ln_increasing; lra).
  assert (ln 26 < 5 * ln 2).
  { replace (5 * ln 2) with (ln (2 ^ 5)).
    - apply ln_increasing; simpl; lra.
    - rewrite ln_pow by lra. simpl INR. lra. }
  lra.
Qed.

(** Why: the update of a component does not serve the Cauchy density.  On
    the data weighted by the responsibilities, the fitted component is
    less likely than the component it replaces. *)
Lemma cauchy_fit_lowers_weighted_log_likelihood :
  let b := zip cauchy_data [1 / 2; 1 / 2; 1 / 2; 1 / 2; 1 / 2] in
  weighted_log_likelihood student_log_probability b
    (student_fit b (StudentTDistribution.init 0 1 1))
  < weighted_log_likelihood student_log_probability b (StudentTDistribution.init 0 1 1).
Proof.
  cbv zeta. unfold cauchy_data. cbn [zip_with]. rewrite cauchy_fit.
  unfold weighted_log_likelihood, EM.total, student_log_probability, R_t1_logpdf.
  cbn [fmap list_fmap foldr fst snd StudentTDistribution.df StudentTDistribution.mu
       StudentTDistribution.std StudentTDistribution.init].
  replace (1 + (0 - 1) / 2 * ((0 - 1) / 2)) with (5 / 4) by lra.
  replace (1 + (5 - 1) / 2 * ((5 - 1) / 2)) with 5 by lra.
  replace (1 + (0 - 0) / 1 * ((0 - 0) / 1)) with 1 by lra.
  replace (1 + (5 - 0) / 1 * ((5 - 0) / 1)) with 26 by lra.
  rewrite ln_1.
  assert (0 < ln (5 / 4)) by (rewrite <- ln_1; apply ln_increasing; lra).
  assert (0 < ln 5) by (rewrite <- ln_1; apply ln_increasing; lra).
  assert (ln 26 < 5 * ln 2).
  { replace (5 * ln 2) with (ln (2 ^ 5)).
    - apply ln_increasing; simpl; lra.
    - rewrite ln_pow by lra. simpl INR. lra. }
  lra.
Qed.

End student_mixture.

Section normal_mixture.
Local Open Scope R_scope.

Lemma normal_fit :
  normal2_fit [(0, 1 / 2); (2, 1 / 2)] (NormalDistribution2.init 0 1)
  = NormalDistribution2.mk 1 1 (1, 1) 1 [# 0; 0; 0].
Proof.
  unfold normal2_fit, state_after.
  rewrite summarize_weighted. cbn [snd].
  rewrite normal2_from_summaries. cbn [snd].
  cbn -[Rplus Rmult Rdiv Rminus R_sqrt.sqrt IZR].
  replace (0 + (0 + 1 / 2 + 1 / 2)) with 1 by lra.
  replace (0 + (0 + 0 * (1 / 2) + 2 * (1 / 2))) with 1 by lra.
  replace (0 + (0 + 0 * 0 * (1 / 2) + 2 * 2 * (1 / 2))) with 2 by lra.
  replace (2 / 1 - 1 * 1 / (1 * 1)) with (1 * 1) by (field; lra).
  rewrite sqrt_square by lra.
  replace (1 / 1) with 1 by (field; lra).
  reflexivity.
Qed.

Lemma normal_mixture_em_step :
  EM.em_step normal2_log_probability normal2_fit normal_mixture normal_data
  = EM.mk [NormalDistribution2.mk 1 1 (1, 1) 1 [# 0; 0; 0];
           NormalDistribution2.mk 1 1 (1, 1) 1 [# 0; 0; 0]]
      [1 / 2; 1 / 2].
Proof.
  unfold EM.em_step, normal_mixture, normal_data.
  cbn [fmap list_fmap EM.distributions EM.weights].
  rewrite !responsibilities_two_halves by reflexivity.
  cbn [imap EM.column fmap list_fmap lookup list_lookup default from_option
       Datatypes.id zip_with length compose].
  rewrite normal_fit. f_equal. unfold EM.total. cbn [foldr INR].
  f_equal; [|f_equal]; lra.
Qed.

Lemma em_step_log_likelihood_monotone_witness :
  EM.log_likelihood normal2_log_probability normal_mixture normal_data
  <= EM.log_likelihood normal2_log_probability
       (EM.em_step normal2_log_probability normal2_fit normal_mixture normal_data)
       normal_data.
Proof.
  apply (em_step_log_likelihood_monotone normal2_log_probability normal2_fit
           normal_mixture normal_data).
  - reflexivity.
  - repeat constructor; lra.
  - unfold EM.total. cbn. lra.
  - intros k distribution Hk. cbv zeta.
    unfold normal_mixture, normal_data in *.
    cbn [fmap list_fmap EM.distributions] in *.
    rewrite !responsibilities_two_halves by reflexivity.
    assert (distribution = NormalDistribution2.init 0 1
            ∧ EM.column k [[1 / 2; 1 / 2]; [1 / 2; 1 / 2]] = [1 / 2; 1 / 2])
      as [-> ->].
    { destruct k as [|[|k]]; cbn in Hk; [by injection Hk as <-..|done]. }
    cbn [zip_with]. rewrite normal_fit.
    unfold weighted_log_likelihood, EM.total, normal2_log_probability, R_norm_logpdf.
    cbn [fmap list_fmap foldr fst snd NormalDistribution2.mu
         NormalDistribution2.std NormalDistribution2.init].
    lra.
Defined.

End normal_mixture.

(** * Further properties of the tutorial's classes *)

(** ** [summarize]: shapes and errors *)

Section normal2_summarize_paths.
Context {A : Type} `{Num A}.
Import NormalDistribution2.

(** The three ways through [summarize]. *)
Lemma summarize_shape_error (X : ndarray A) (w : option (list A)) (self : t) :
  reshape_shape0 X = None → summarize X w self = (Exc ValueError, self).
Proof. intros HX. unfold summarize. run_method. by rewrite HX. Qed.

Lemma summarize_length_error (X : ndarray A) (x : list A) (w : option (list A))
    (self : t) :
  reshape_shape0 X = Some x →
  length x ≠ length (default (ones (shape0 X)) w) →
  summarize X w self
  = (Exc ValueError,
     set_summaries
       (vinsert 0%fin
          (summaries self !!! 0%fin + np_sum (default (ones (shape0 X)) w))%num
          (summaries self)) self).
Proof.
  intros HX Hlen. unfold summarize, summaries_iadd. run_method. rewrite HX.
  run_method. unfold np_dot. by rewrite decide_False.
Qed.

Lemma summarize_returns (X : ndarray A) (x : list A) (w : option (list A))
    (self : t) :
  reshape_shape0 X = Some x →
  length x = length (default (ones (shape0 X)) w) →
  summarize X w self
  = (Val (),
     set_summaries
       (vzip_with num_add (summaries self)
          (sufficient_statistics (zip x (default (ones (shape0 X)) w)))) self).
Proof.
  intros HX Hlen. unfold summarize, summaries_iadd. run_method. rewrite HX.
  run_method. unfold np_dot, np_square.
  rewrite length_fmap, !decide_True by done. run_method.
  f_equal. destruct self as [m s p n v]. unfold set_summaries. cbn.
  f_equal. inv_vec v. intros s0 s1 s2. cbn.
  set (w' := default (ones (shape0 X)) w) in *.
  rewrite snd_zip by lia.
  assert (Hx : zip_with num_mul x w' = (λ p, p.1 * p.2)%num <$> zip x w').
  { rewrite <- (zip_with_fst_snd_fmap num_mul (zip x w')).
    by rewrite fst_zip, snd_zip by lia. }
  assert (Hx2 : zip_with num_mul (square <$> x) w'
                = (λ p, square p.1 * p.2)%num <$> zip x w').
  { rewrite <- (zip_with_fst_snd_fmap (λ a b, square a * b)%num (zip x w')).
    rewrite fst_zip, snd_zip by lia. by rewrite zip_with_fmap_l. }
  by rewrite Hx, Hx2.
Qed.

(** A column of shape [(n, 1)] reshapes to its entries. *)
Lemma reshape_column (X : list A) :
  reshape_shape0 (Mat ((λ x, [x]) <$> X)) = Some X.
Proof.
  cbn [reshape_shape0].
  assert (Hall : forallb (λ row : list A, length row =? 1) ((λ x, [x]) <$> X) = true).
  { induction X as [|x X IH]; [done|]. cbn. exact IH. }
  rewrite Hall. clear Hall. f_equal. induction X as [|x X IH]; [done|].
  simpl. f_equal. exact IH.
Qed.

Lemma reshape_length (X : ndarray A) (x : list A) :
  reshape_shape0 X = Some x → length x = shape0 X.
Proof.
  destruct X as [v|rows]; cbn [reshape_shape0 shape0].
  - by intros [= ->].
  - destruct (forallb _ rows) eqn:Hall; [|done]. intros [= <-].
    induction rows as [|row rows IH]; [done|].
    cbn [forallb] in Hall. apply andb_prop in Hall as [Hrow Hall].
    apply Nat.eqb_eq in Hrow. cbn [concat]. rewrite length_app, IH by done.
    cbn. lia.
Qed.

End normal2_summarize_paths.

(** X1.  When [NormalDistribution2.summarize] returns and when it raises.
    The call returns exactly when [X] has the shape [(n,)] or [(n, 1)] and
    the weights, given or defaulted to ones, are [n] numbers; without
    weights, exactly when [X] has such a shape.  Any other call raises
    [ValueError] and nothing else, and a call refused for the shape of [X]
    leaves the object as it was. *)
Theorem summarize_returns_iff {A : Type} `{Num A} (X : ndarray A)
    (w : option (list A)) (self : NormalDistribution2.t) :
  ((NormalDistribution2.summarize X w self).1 = Val ()
   ↔ ∃ x, reshape_shape0 X = Some x
          ∧ length x = length (default (ones (shape0 X)) w))
  ∧ ((NormalDistribution2.summarize X None self).1 = Val ()
     ↔ is_Some (reshape_shape0 X))
  ∧ ((NormalDistribution2.summarize X w self).1 = Val ()
     ∨ (NormalDistribution2.summarize X w self).1 = Exc ValueError)
  ∧ (reshape_shape0 X = None
     → NormalDistribution2.summarize X w self = (Exc ValueError, self)).
Proof.
  assert (Hiff : ∀ w', (NormalDistribution2.summarize X w' self).1 = Val ()
    ↔ ∃ x, reshape_shape0 X = Some x
           ∧ length x = length (default (ones (shape0 X)) w')).
  { intros w'. destruct (reshape_shape0 X) as [x|] eqn:HX.
    - destruct (decide (length x = length (default (ones (shape0 X)) w'))) as [Hl|Hl].
      + rewrite (summarize_returns X x) by done. split; [|done]. intros _. by exists x.
      + rewrite (summarize_length_error X x) by done. split; [done|].
        by intros (x' & [= <-] & Hx').
    - rewrite summarize_shape_error by done. split; [done|]. by intros (x & ? & _). }
  split_and!.
  - apply Hiff.
  - rewrite Hiff. split.
    + intros (x & -> & _). by eexists.
    + intros [x Hx]. exists x. split; [done|]. cbn.
      unfold ones. rewrite length_replicate. by apply reshape_length.
  - destruct (reshape_shape0 X) as [x|] eqn:HX.
    + destruct (decide (length x = length (default (ones (shape0 X)) w))) as [Hl|Hl].
      * left. by rewrite (summarize_returns X x).
      * right. by rewrite (summarize_length_error X x).
    + right. by rewrite summarize_shape_error.
  - apply summarize_shape_error.
Qed.

(** X2.  A call of [summarize] whose weights do not fit the data raises
    [ValueError] after the sum of the weights has been added to
    [summaries[0]]: the object is left with this one entry changed, the
    other two entries and the parameters as they were. *)
Theorem summarize_wrong_weights_half_done {A : Type} `{Num A} (X : ndarray A)
    (x w : list A) (self : NormalDistribution2.t) :
  reshape_shape0 X = Some x →
  length x ≠ length w →
  NormalDistribution2.summarize X (Some w) self
  = (Exc ValueError,
     NormalDistribution2.mk (NormalDistribution2.mu self) (NormalDistribution2.std self)
       (NormalDistribution2.parameters self) (NormalDistribution2.d self)
       (vinsert 0%fin (NormalDistribution2.summaries self !!! 0%fin + np_sum w)%num
          (NormalDistribution2.summaries self))).
Proof. intros HX Hlen. by rewrite (summarize_length_error X x). Qed.

Lemma summarize_wrong_weights_half_done_witness :
  NormalDistribution2.summarize (Mat [[1%float]; [2%float]]) (Some [3%float])
    (NormalDistribution2.init 0%float 1%float)
  = (Exc ValueError,
     NormalDistribution2.mk 0%float 1%float (0%float, 1%float) 1
       [# 3%float; 0%float; 0%float]).
Proof.
  exact (summarize_wrong_weights_half_done (Mat [[1%float]; [2%float]])
    [1%float; 2%float] [3%float] (NormalDistribution2.init 0%float 1%float)
    eq_refl ltac:(cbn; lia)).
Defined.

(** X3.  [summarize] takes a column of shape [(n, 1)] for the vector of its
    entries: the two calls end alike and leave the same object; likewise
    for [StudentTDistribution]. *)
Theorem summarize_column_as_vector {A : Type} `{Num A} (X : list A)
    (w : option (list A)) (normal : NormalDistribution2.t)
    (student : StudentTDistribution.t) :
  NormalDistribution2.summarize (Mat ((λ x, [x]) <$> X)) w normal
  = NormalDistribution2.summarize (Vec X) w normal
  ∧ StudentTDistribution.summarize (Mat ((λ x, [x]) <$> X)) w student
    = StudentTDistribution.summarize (Vec X) w student.
Proof.
  unfold NormalDistribution2.summarize, StudentTDistribution.summarize.
  rewrite reshape_column. cbn [reshape_shape0 shape0]. by rewrite length_fmap.
Qed.

(** ** [StudentTDistribution] is fitted as a normal distribution *)

(** X4.  The methods that fit a [StudentTDistribution] are those of
    [NormalDistribution2] on the attributes the two classes share:
    [summarize] and [from_summaries] end the same way and leave the same
    [mu], [std], [parameters], [d] and [summaries], and [from_samples]
    gives the [mu] and [std] of [NormalDistribution2.from_samples] whatever
    [df] it is given. *)
Theorem student_fitted_as_normal {A : Type} `{Num A} (X : ndarray A)
    (w : option (list A)) (inertia df : A) (self : StudentTDistribution.t) :
  ((StudentTDistribution.summarize X w self).1
   = (NormalDistribution2.summarize X w (as_normal self)).1
   ∧ as_normal (state_after (StudentTDistribution.summarize X w) self)
     = state_after (NormalDistribution2.summarize X w) (as_normal self))
  ∧ ((StudentTDistribution.from_summaries inertia self).1
     = (NormalDistribution2.from_summaries inertia (as_normal self)).1
     ∧ as_normal (state_after (StudentTDistribution.from_summaries inertia) self)
       = state_after (NormalDistribution2.from_summaries inertia) (as_normal self))
  ∧ ((StudentTDistribution.from_samples X w df).1
     = (NormalDistribution2.from_samples X w).1
     ∧ as_normal (StudentTDistribution.from_samples X w df).2
       = (NormalDistribution2.from_samples X w).2
     ∧ StudentTDistribution.df (StudentTDistribution.from_samples X w df).2 = df).
Proof.
  assert (Hsum : ∀ s : StudentTDistribution.t,
    (StudentTDistribution.summarize X w s).1
    = (NormalDistribution2.summarize X w (as_normal s)).1
    ∧ as_normal (StudentTDistribution.summarize X w s).2
      = (NormalDistribution2.summarize X w (as_normal s)).2
    ∧ StudentTDistribution.df (StudentTDistribution.summarize X w s).2
      = StudentTDistribution.df s).
  { intros [m s f p n v].
    unfold StudentTDistribution.summarize, StudentTDistribution.summaries_iadd,
      NormalDistribution2.summarize, NormalDistribution2.summaries_iadd, as_normal.
    run_method.
    destruct (reshape_shape0 X) as [x|]; [|done]. run_method.
    destruct (np_dot x _) as [xw|]; [|done]. run_method.
    destruct (np_dot (np_square x) _) as [x2w|]; done. }
  assert (Hfrom : ∀ (i : A) (s : StudentTDistribution.t),
    (StudentTDistribution.from_summaries i s).1
    = (NormalDistribution2.from_summaries i (as_normal s)).1
    ∧ as_normal (StudentTDistribution.from_summaries i s).2
      = (NormalDistribution2.from_summaries i (as_normal s)).2
    ∧ StudentTDistribution.df (StudentTDistribution.from_summaries i s).2
      = StudentTDistribution.df s).
  { intros i s. by rewrite student_from_summaries, normal2_from_summaries. }
  unfold state_after. split_and!; try apply Hsum; try apply Hfrom.
  - unfold StudentTDistribution.from_samples, NormalDistribution2.from_samples.
    unfold mbind, M_bind.
    destruct (Hsum (StudentTDistribution.init num_zero num_zero df)) as (H1 & H2 & _).
    change (as_normal (StudentTDistribution.init num_zero num_zero df))
      with (NormalDistribution2.init (A:=A) num_zero num_zero) in *.
    destruct (StudentTDistribution.summarize X w _) as [[[]|e] s1],
      (NormalDistribution2.summarize X w _) as [[[]|e'] n1];
      cbn [fst snd] in *; done.
  - unfold StudentTDistribution.from_samples, NormalDistribution2.from_samples.
    unfold mbind, M_bind.
    destruct (Hsum (StudentTDistribution.init num_zero num_zero df)) as (H1 & H2 & _).
    change (as_normal (StudentTDistribution.init num_zero num_zero df))
      with (NormalDistribution2.init (A:=A) num_zero num_zero) in *.
    destruct (StudentTDistribution.summarize X w _) as [[[]|e] s1],
      (NormalDistribution2.summarize X w _) as [[[]|e'] n1];
      cbn [fst snd] in *; try done.
    subst n1. apply Hfrom.
  - unfold StudentTDistribution.from_samples. unfold mbind, M_bind.
    destruct (Hsum (StudentTDistribution.init num_zero num_zero df)) as (_ & _ & H3).
    destruct (StudentTDistribution.summarize X w _) as [[[]|e] s1];
      cbn [fst snd] in *; [|done].
    destruct (Hfrom num_zero s1) as (_ & _ & H4). by rewrite H4.
Qed.

(** ** The accumulator and the estimates in exact arithmetic *)

Section exact_sums.
Local Open Scope R_scope.

Lemma np_sum_cons_R (x : R) (l : list R) : np_sum (x :: l) = x + np_sum l.
Proof.
  unfold np_sum at 1. cbn [foldl]. rewrite foldl_add_from.
  unfold num_add, num_zero, R_Num. lra.
Qed.

Lemma np_sum_nil_R : np_sum (A:=R) [] = 0.
Proof. reflexivity. Qed.

Lemma np_sum_Permutation (l l' : list R) : l ≡ₚ l' → np_sum l = np_sum l'.
Proof.
  induction 1 as [|x l l' _ IH|x y l|l l' l'' _ IH1 _ IH2].
  - done.
  - by rewrite !np_sum_cons_R, IH.
  - rewrite !np_sum_cons_R. lra.
  - by rewrite IH1.
Qed.

Lemma np_sum_scale (k : R) (l : list R) :
  np_sum ((λ x, k * x) <$> l) = k * np_sum l.
Proof.
  induction l as [|x l IH].
  - rewrite fmap_nil, np_sum_nil_R. lra.
  - rewrite fmap_cons, !np_sum_cons_R, IH. lra.
Qed.

Lemma np_sum_nonneg (l : list R) : Forall (λ x, 0 <= x) l → 0 <= np_sum l.
Proof.
  induction 1 as [|x l Hx _ IH].
  - rewrite np_sum_nil_R. lra.
  - rewrite np_sum_cons_R. lra.
Qed.

Lemma np_sum_zero (l : list R) : Forall (λ x, x = 0) l → np_sum l = 0.
Proof.
  induction 1 as [|x l Hx _ IH].
  - apply np_sum_nil_R.
  - rewrite np_sum_cons_R. lra.
Qed.

Lemma concat_Permutation {B : Type} (ls ls' : list (list B)) :
  ls ≡ₚ ls' → concat ls ≡ₚ concat ls'.
Proof.
  induction 1 as [|x l l' _ IH|x y l|l l' l'' _ IH1 _ IH2]; cbn [concat].
  - done.
  - by rewrite IH.
  - rewrite !(assoc (++)). by rewrite (comm (++) y x).
  - by rewrite IH1.
Qed.

Lemma sufficient_statistics_Permutation (b b' : list (R * R)) :
  b ≡ₚ b' → sufficient_statistics b = sufficient_statistics b'.
Proof.
  intros Hb. unfold sufficient_statistics.
  rewrite (np_sum_Permutation b.*2 b'.*2) by by rewrite Hb.
  rewrite (np_sum_Permutation (_ <$> b) ((λ p, p.1 * p.2)%num <$> b')) by by rewrite Hb.
  rewrite (np_sum_Permutation (_ <$> b) ((λ p, square p.1 * p.2)%num <$> b'))
    by by rewrite Hb.
  done.
Qed.

(** The sums of the deviations from any centre [m], by the three sums
    [summarize] keeps. *)
Lemma np_sum_deviations (m : R) (b : list (R * R)) :
  np_sum ((λ p, p.2 * ((p.1 - m) * (p.1 - m))) <$> b)
  = np_sum ((λ p, square p.1 * p.2)%num <$> b)
    - 2 * m * np_sum ((λ p, p.1 * p.2)%num <$> b)
    + m * m * np_sum b.*2.
Proof.
  induction b as [|[x w] b IH].
  - rewrite !fmap_nil, !np_sum_nil_R. lra.
  - rewrite !fmap_cons, !np_sum_cons_R, IH. cbn [fst snd].
    unfold square, num_mul, R_Num. ring.
Qed.

Lemma np_sum_deviations_nonneg (m : R) (b : list (R * R)) :
  Forall (λ p, 0 <= p.2) b →
  0 <= np_sum ((λ p, p.2 * ((p.1 - m) * (p.1 - m))) <$> b).
Proof.
  intros Hb. apply np_sum_nonneg. apply Forall_fmap.
  eapply Forall_impl; [exact Hb|]. intros [x w] Hw. cbn [fst snd] in *.
  apply Rmult_le_pos; [exact Hw|]. apply (Rle_0_sqr (x - m)).
Qed.

(** [from_samples] on weighted samples, by the three sums. *)
Lemma normal2_from_samples_sums (b : list (R * R)) :
  let s0 := np_sum b.*2 in
  let s1 := np_sum ((λ p, p.1 * p.2)%num <$> b) in
  let s2 := np_sum ((λ p, square p.1 * p.2)%num <$> b) in
  let mu := s1 / s0 in
  let std := sqrt (s2 / s0 - s1 * s1 / (s0 * s0)) in
  NormalDistribution2.from_samples (Vec b.*1) (Some b.*2)
  = (Val (), NormalDistribution2.mk mu std (mu, std) 1 [# 0; 0; 0]).
Proof.
  cbv zeta. unfold NormalDistribution2.from_samples.
  erewrite bind_returned by apply summarize_weighted.
  rewrite normal2_from_summaries. cbn.
  rewrite !Rplus_0_l. reflexivity.
Qed.

End exact_sums.

(** X5.  In exact arithmetic the order of the samples does not matter to
    [summarize], nor the order of the batches: samples that are a
    permutation of others, weights moved along with their points, leave
    the same object. *)
Theorem summarize_order_irrelevant (b b' : list (R * R))
    (batches batches' : list (list (R * R))) (self : NormalDistribution2.t) :
  b ≡ₚ b' →
  batches ≡ₚ batches' →
  NormalDistribution2.summarize (Vec b.*1) (Some b.*2) self
  = NormalDistribution2.summarize (Vec b'.*1) (Some b'.*2) self
  ∧ summarize_batches batches self = summarize_batches batches' self.
Proof.
  intros Hb Hbatches. split.
  - rewrite !summarize_weighted. by rewrite (sufficient_statistics_Permutation b b').
  - rewrite !summarize_batches_at_once, !summarize_weighted.
    by rewrite (sufficient_statistics_Permutation (concat batches) (concat batches'))
      by by apply concat_Permutation.
Qed.

Lemma summarize_order_irrelevant_witness :
  NormalDistribution2.summarize (Vec [1%R; 3%R]) (Some [2%R; 4%R])
    (NormalDistribution2.init 0%R 1%R)
  = NormalDistribution2.summarize (Vec [3%R; 1%R]) (Some [4%R; 2%R])
      (NormalDistribution2.init 0%R 1%R).
Proof.
  exact (proj1 (summarize_order_irrelevant
    [(1%R, 2%R); (3%R, 4%R)] [(3%R, 4%R); (1%R, 2%R)]
    [[(1%R, 1%R)]; []] [[]; [(1%R, 1%R)]] (NormalDistribution2.init 0%R 1%R)
    (perm_swap _ _ _) (perm_swap _ _ _))).
Defined.

Section exact_estimates.
Local Open Scope R_scope.

Lemma weighted_variance_sums (b : list (R * R)) :
  np_sum b.*2 ≠ 0 →
  weighted_variance b
  = np_sum ((λ p, square p.1 * p.2)%num <$> b) / np_sum b.*2
    - np_sum ((λ p, p.1 * p.2)%num <$> b) * np_sum ((λ p, p.1 * p.2)%num <$> b)
      / (np_sum b.*2 * np_sum b.*2).
Proof.
  intros Hs0. unfold weighted_variance. rewrite np_sum_deviations.
  unfold weighted_mean. unfold num_mul, R_Num. field. exact Hs0.
Qed.

Lemma weighted_variance_nonneg (b : list (R * R)) :
  Forall (λ p, 0 <= p.2) b → np_sum b.*2 ≠ 0 → 0 <= weighted_variance b.
Proof.
  intros Hb Hs0. unfold weighted_variance.
  assert (0 <= np_sum b.*2) by (apply np_sum_nonneg; by apply Forall_fmap).
  apply Rmult_le_pos; [by apply np_sum_deviations_nonneg|].
  apply Rlt_le, Rinv_0_lt_compat. lra.
Qed.

Lemma from_samples_moments (b : list (R * R)) :
  np_sum b.*2 ≠ 0 →
  NormalDistribution2.from_samples (Vec b.*1) (Some b.*2)
  = (Val (),
     NormalDistribution2.mk (weighted_mean b) (sqrt (weighted_variance b))
       (weighted_mean b, sqrt (weighted_variance b)) 1 [# 0; 0; 0]).
Proof.
  intros Hs0. rewrite normal2_from_samples_sums. cbv zeta.
  by rewrite <- weighted_variance_sums.
Qed.

Lemma np_sum_linear {B : Type} (k l : R) (f g : B → R) (b : list B) :
  np_sum ((λ p, k * f p + l * g p) <$> b)
  = k * np_sum (f <$> b) + l * np_sum (g <$> b).
Proof.
  induction b as [|p b IH].
  - rewrite !fmap_nil, !np_sum_nil_R. lra.
  - rewrite !fmap_cons, !np_sum_cons_R, IH. lra.
Qed.

End exact_estimates.

(** X6.  What [from_samples] estimates.  In exact arithmetic, for weighted
    samples whose weights do not sum to zero, [mu] is the weighted mean of
    the points and [std] the square root of their weighted mean squared
    deviation from [mu]; with weights that are not negative this deviation
    is not negative, so [std * std] is the variance of the sample. *)
Theorem from_samples_mean_and_deviation (b : list (R * R)) :
  np_sum b.*2 ≠ 0%R →
  NormalDistribution2.from_samples (Vec b.*1) (Some b.*2)
  = (Val (),
     NormalDistribution2.mk (weighted_mean b) (sqrt (weighted_variance b))
       (weighted_mean b, sqrt (weighted_variance b)) 1 [# 0%R; 0%R; 0%R])
  ∧ (Forall (λ p, 0 <= p.2)%R b →
     (0 <= weighted_variance b)%R
     ∧ (sqrt (weighted_variance b) * sqrt (weighted_variance b))%R
       = weighted_variance b).
Proof.
  intros Hs0. split.
  - by apply from_samples_moments.
  - intros Hb. pose proof (weighted_variance_nonneg b Hb Hs0) as Hv.
    split; [exact Hv|]. by apply sqrt_sqrt.
Qed.

Lemma from_samples_mean_and_deviation_witness :
  NormalDistribution2.from_samples (Vec [1%R; 3%R]) (Some [1%R; 1%R])
  = (Val (),
     NormalDistribution2.mk (weighted_mean [(1%R, 1%R); (3%R, 1%R)])
       (sqrt (weighted_variance [(1%R, 1%R); (3%R, 1%R)]))
       (weighted_mean [(1%R, 1%R); (3%R, 1%R)],
        sqrt (weighted_variance [(1%R, 1%R); (3%R, 1%R)])) 1 [# 0%R; 0%R; 0%R]).
Proof.
  refine (proj1 (from_samples_mean_and_deviation [(1%R, 1%R); (3%R, 1%R)] _)).
  cbn. lra.
Defined.

(** X7.  Only the proportions of the weights count: in exact arithmetic,
    multiplying every weight by the same number other than zero changes
    nothing of what [from_samples] returns. *)
Theorem from_samples_weights_up_to_scale (k : R) (b : list (R * R)) :
  k ≠ 0%R →
  np_sum b.*2 ≠ 0%R →
  NormalDistribution2.from_samples (Vec b.*1) (Some ((λ w, k * w)%R <$> b.*2))
  = NormalDistribution2.from_samples (Vec b.*1) (Some b.*2).
Proof.
  intros Hk Hs0.
  set (b' := (λ p : R * R, (p.1, (k * p.2)%R)) <$> b).
  assert (H1 : b'.*1 = b.*1).
  { unfold b'. rewrite <- list_fmap_compose. by apply list_fmap_ext. }
  assert (H2 : b'.*2 = (λ w, k * w)%R <$> b.*2).
  { unfold b'. rewrite <- !list_fmap_compose. by apply list_fmap_ext. }
  rewrite <- H1 at 1. rewrite <- H2.
  rewrite !normal2_from_samples_sums. cbv zeta.
  assert (Hs0' : np_sum b'.*2 = (k * np_sum b.*2)%R).
  { by rewrite H2, np_sum_scale. }
  assert (Hs1' : np_sum ((λ p, p.1 * p.2)%num <$> b')
                 = (k * np_sum ((λ p, p.1 * p.2)%num <$> b))%R).
  { rewrite <- np_sum_scale. unfold b'. rewrite <- !list_fmap_compose.
    f_equal. apply list_fmap_ext. intros _ [x w] _. cbn. lra. }
  assert (Hs2' : np_sum ((λ p, square p.1 * p.2)%num <$> b')
                 = (k * np_sum ((λ p, square p.1 * p.2)%num <$> b))%R).
  { rewrite <- np_sum_scale. unfold b'. rewrite <- !list_fmap_compose.
    f_equal. apply list_fmap_ext. intros _ [x w] _. cbn. unfold square. cbn. lra. }
  rewrite Hs0', Hs1', Hs2'.
  set (s0 := np_sum b.*2) in *.
  set (s1 := np_sum ((λ p, p.1 * p.2)%num <$> b)).
  set (s2 := np_sum ((λ p, square p.1 * p.2)%num <$> b)).
  replace (k * s1 / (k * s0))%R with (s1 / s0)%R by (field; done).
  replace (k * s2 / (k * s0) - k * s1 * (k * s1) / (k * s0 * (k * s0)))%R
    with (s2 / s0 - s1 * s1 / (s0 * s0))%R by (field; done).
  reflexivity.
Qed.

Lemma from_samples_weights_up_to_scale_witness :
  NormalDistribution2.from_samples (Vec [1%R; 3%R]) (Some [(2 * 1)%R; (2 * 3)%R])
  = NormalDistribution2.from_samples (Vec [1%R; 3%R]) (Some [1%R; 3%R]).
Proof.
  refine (from_samples_weights_up_to_scale 2 [(1%R, 1%R); (3%R, 3%R)] _ _).
  - lra.
  - cbn. lra.
Defined.

(** X8.  Moving and stretching the data moves and stretches the estimates:
    in exact arithmetic, for weights that are not negative and do not sum
    to zero, the points [a * x + c] give the mean [a * mu + c] and the
    deviation [|a| * std], where [mu] and [std] are what the points [x]
    give. *)
Theorem from_samples_affine (a c : R) (b : list (R * R)) :
  Forall (λ p, 0 <= p.2)%R b →
  np_sum b.*2 ≠ 0%R →
  NormalDistribution2.from_samples
    (Vec ((λ x, a * x + c)%R <$> b.*1)) (Some b.*2)
  = (Val (),
     NormalDistribution2.mk
       (a * weighted_mean b + c)%R (Rabs a * sqrt (weighted_variance b))%R
       ((a * weighted_mean b + c)%R, (Rabs a * sqrt (weighted_variance b))%R)
       1 [# 0%R; 0%R; 0%R]).
Proof.
  intros _ Hs0.
  set (b' := (λ p : R * R, ((a * p.1 + c)%R, p.2)) <$> b).
  assert (H1 : b'.*1 = (λ x, a * x + c)%R <$> b.*1).
  { unfold b'. rewrite <- !list_fmap_compose. by apply list_fmap_ext. }
  assert (H2 : b'.*2 = b.*2).
  { unfold b'. rewrite <- list_fmap_compose. by apply list_fmap_ext. }
  rewrite <- H1, <- H2.
  assert (Hs0' : np_sum b'.*2 ≠ 0%R) by by rewrite H2.
  rewrite (from_samples_moments b' Hs0').
  assert (Hmean : weighted_mean b' = (a * weighted_mean b + c)%R).
  { unfold weighted_mean. rewrite H2. unfold b'. rewrite <- list_fmap_compose.
    erewrite (list_fmap_ext _ (λ p, a * (p.1 * p.2) + c * p.2)%R b)
      by (intros _ [x w] _; cbn; lra).
    rewrite np_sum_linear. fold (snd <$> b). field. exact Hs0. }
  assert (Hvar : weighted_variance b' = (a * a * weighted_variance b)%R).
  { unfold weighted_variance. rewrite Hmean, H2.
    unfold b'. rewrite <- list_fmap_compose.
    erewrite (list_fmap_ext _
      (λ p, a * a * (p.2 * ((p.1 - weighted_mean b) * (p.1 - weighted_mean b)))
            + 0 * 0)%R b)
      by (intros _ [x w] _; cbn; ring).
    rewrite np_sum_linear. field. exact Hs0. }
  rewrite Hmean, Hvar.
  rewrite sqrt_mult_alt by apply (Rle_0_sqr a).
  rewrite (sqrt_Rsqr_abs a : sqrt (a * a) = Rabs a).
  reflexivity.
Qed.

Lemma from_samples_affine_witness :
  let b := [(1%R, 1%R); (3%R, 1%R)] in
  NormalDistribution2.from_samples
    (Vec [(2 * 1 + 5)%R; (2 * 3 + 5)%R]) (Some [1%R; 1%R])
  = (Val (),
     NormalDistribution2.mk
       (2 * weighted_mean b + 5)%R (Rabs 2 * sqrt (weighted_variance b))%R
       ((2 * weighted_mean b + 5)%R, (Rabs 2 * sqrt (weighted_variance b))%R)
       1 [# 0%R; 0%R; 0%R]).
Proof.
  refine (from_samples_affine 2 5 [(1%R, 1%R); (3%R, 1%R)] _ _).
  - repeat constructor; cbn; lra.
  - cbn. lra.
Defined.

(** X9.  Samples of weight zero are not seen: in exact arithmetic,
    [summarize] leaves the same object whether or not samples whose weight
    is [0] stand among the others. *)
Theorem summarize_ignores_zero_weights (b1 b0 b2 : list (R * R))
    (self : NormalDistribution2.t) :
  Forall (λ p, p.2 = 0%R) b0 →
  NormalDistribution2.summarize
    (Vec (b1 ++ b0 ++ b2).*1) (Some (b1 ++ b0 ++ b2).*2) self
  = NormalDistribution2.summarize (Vec (b1 ++ b2).*1) (Some (b1 ++ b2).*2) self.
Proof.
  intros Hb0. rewrite !summarize_weighted. do 2 f_equal.
  rewrite !sufficient_statistics_app. do 2 f_equal.
  assert (Hzero : sufficient_statistics b0 = [# 0%R; 0%R; 0%R]).
  { unfold sufficient_statistics.
    rewrite !np_sum_zero; [done|..]; apply Forall_fmap;
      (eapply Forall_impl; [exact Hb0|]); intros [x w]; cbn; intros ->;
      unfold square; cbn; lra. }
  rewrite Hzero. unfold sufficient_statistics. cbn.
  by rewrite !Rplus_0_l.
Qed.

Lemma summarize_ignores_zero_weights_witness :
  NormalDistribution2.summarize (Vec [1%R; 7%R; 3%R]) (Some [1%R; 0%R; 1%R])
    (NormalDistribution2.init 0%R 1%R)
  = NormalDistribution2.summarize (Vec [1%R; 3%R]) (Some [1%R; 1%R])
      (NormalDistribution2.init 0%R 1%R).
Proof.
  refine (summarize_ignores_zero_weights [(1%R, 1%R)] [(7%R, 0%R)] [(3%R, 1%R)]
            (NormalDistribution2.init 0%R 1%R) _).
  repeat constructor.
Defined.

(** In binary64 a weight of zero does not hide every sample: an infinite
    point with weight [0] leaves [summaries[1]] and [summaries[2]] not a
    number. *)
Example summarize_zero_weight_infinite_point :
  NormalDistribution2.summarize (Vec [infinity]) (Some [0%float])
    (NormalDistribution2.init 0%float 1%float)
  = (Val (),
     NormalDistribution2.mk 0%float 1%float (0%float, 1%float) 1
       [# 0%float; nan; nan]).
Proof. reflexivity. Qed.

(** ** BlockGaussianDistribution: what the loops do with their input *)

Lemma sum_list_cons (x : nat) (l : list nat) : sum_list (x :: l) = x + sum_list l.
Proof. reflexivity. Qed.

Lemma slice_cols_take {A : Type} (rows : list (list A)) (i j n : nat) :
  i ≤ j → j ≤ n → slice_cols (take n <$> rows) i j = slice_cols rows i j.
Proof.
  intros Hij Hjn. unfold slice_cols. rewrite <- list_fmap_compose.
  apply list_fmap_ext. intros _ row _. cbn.
  rewrite !take_drop_commute, take_take.
  by replace (min (i + (j - i)) n) with (i + (j - i)) by lia.
Qed.

Section block_loops.
Context {A D : Type} `{Num A} `{FixedDimension A D}.
Import BlockGaussianDistribution.

(** The body of the loop of [summarize] when the component raises. *)
Lemma summarize_body_raises (X : list (list A)) (w : option (list A))
    (distribution : D) (i : nat) (e : exn) :
  (dist_summarize (Mat (slice_cols X i (i + dist_d distribution))) w distribution).1
  = Exc e →
  summarize_body (Mat X) w i distribution
  = (Exc e,
     state_after (dist_summarize (Mat (slice_cols X i (i + dist_d distribution))) w)
       distribution).
Proof.
  intros Hd. unfold summarize_body. cbn [columns]. run_method.
  destruct (dist_summarize _ w distribution) as [r distribution'].
  cbn [fst snd] in *. by subst r.
Qed.

Lemma summarize_loop_raises (X : list (list A)) (w : option (list A))
    (pre : list D) (bad : D) (post : list D) (i : nat) (e : exn) :
  let j := i + sum_list (dist_d <$> pre) in
  Forall (λ c : D * (nat * nat),
      (dist_summarize (Mat (slice_cols X c.2.1 c.2.2)) w c.1).1 = Val ())
    (zip pre (slices_from i pre)) →
  (dist_summarize (Mat (slice_cols X j (j + dist_d bad))) w bad).1 = Exc e →
  for_each (summarize_body (Mat X) w) i (pre ++ bad :: post)
  = (Exc e,
     zip_with (λ distribution (s : nat * nat),
         state_after (dist_summarize (Mat (slice_cols X s.1 s.2)) w) distribution)
       pre (slices_from i pre)
     ++ state_after (dist_summarize (Mat (slice_cols X j (j + dist_d bad))) w) bad
     :: post).
Proof.
  cbv zeta. revert i. induction pre as [|distribution pre IH]; intros i Hpre Hbad.
  - change (sum_list (dist_d <$> [])) with 0 in *. rewrite Nat.add_0_r in *.
    cbn [app for_each slices_from zip_with].
    by rewrite (summarize_body_raises X w bad i e).
  - cbn [slices_from zip_with] in Hpre. apply Forall_cons in Hpre as [Hd Hpre].
    cbn [fst snd] in Hd.
    rewrite fmap_cons, sum_list_cons, Nat.add_assoc in Hbad.
    cbn [app for_each slices_from zip_with fst snd].
    rewrite summarize_body_returns by done.
    rewrite (IH (i + dist_d distribution)) by done.
    by rewrite fmap_cons, sum_list_cons, Nat.add_assoc.
Qed.

(** After its body has returned, the loop of [summarize] stands at the end
    of the component's columns. *)
Lemma summarize_body_next (X : ndarray A) (w : option (list A))
    (distribution distribution' : D) (i i' : nat) :
  summarize_body X w i distribution = (Val i', distribution') →
  i' = i + dist_d distribution.
Proof.
  unfold summarize_body. run_method.
  destruct (columns X i (i + dist_d distribution)) as [Xi|]; [|done]. run_method.
  pose proof (summarize_keeps_d Xi w distribution) as Hkeep. unfold state_after in Hkeep.
  destruct (dist_summarize Xi w distribution) as [[[]|e] x']; [|done].
  cbn [snd] in Hkeep. intros [= <- <-]. by rewrite Hkeep.
Qed.

Lemma summarize_body_take (rows : list (list A)) (w : option (list A))
    (distribution : D) (i n : nat) :
  i + dist_d distribution ≤ n →
  summarize_body (Mat (take n <$> rows)) w i distribution
  = summarize_body (Mat rows) w i distribution.
Proof.
  intros Hn. unfold summarize_body. cbn [columns]. run_method.
  by rewrite slice_cols_take by lia.
Qed.

Lemma summarize_loop_take (rows : list (list A)) (w : option (list A))
    (ds : list D) (i n : nat) :
  i + sum_list (dist_d <$> ds) ≤ n →
  for_each (summarize_body (Mat (take n <$> rows)) w) i ds
  = for_each (summarize_body (Mat rows) w) i ds.
Proof.
  revert i. induction ds as [|distribution ds IH]; intros i Hn; [done|].
  rewrite fmap_cons, sum_list_cons in Hn.
  cbn [for_each]. rewrite summarize_body_take by lia.
  destruct (summarize_body (Mat rows) w i distribution) as [[i'|e] x'] eqn:Hbody; [|done].
  apply summarize_body_next in Hbody as ->.
  rewrite IH by lia. done.
Qed.

Lemma log_probability_loop_take (rows : list (list A)) (ds : list D)
    (i n : nat) (acc : list A) :
  i + sum_list (dist_d <$> ds) ≤ n →
  log_probability_loop ds (Mat (take n <$> rows)) i acc
  = log_probability_loop ds (Mat rows) i acc.
Proof.
  revert i acc. induction ds as [|distribution ds IH]; intros i acc Hn; [done|].
  rewrite fmap_cons, sum_list_cons in Hn.
  cbn [log_probability_loop columns]. rewrite slice_cols_take by lia.
  destruct (dist_log_probability distribution _) as [lp|e]; [|done].
  cbn [mbind result_bind].
  destruct (iadd acc lp) as [acc'|]; [|done].
  apply IH. lia.
Qed.

End block_loops.

(** X10.  A component that raises stops [summarize] of a block where it
    stands: the exception is the block's, the components before it have
    summarized their columns, the one that raised is left as its own
    [summarize] left it, those after it have not been called. *)
Theorem block_summarize_stops_at_failure {A D : Type} `{Num A} `{FixedDimension A D}
    (rows : list (list A)) (w : option (list A))
    (pre : list D) (bad : D) (post : list D) (e : exn) :
  let self := BlockGaussianDistribution.init (pre ++ bad :: post) in
  let j := sum_list (dist_d <$> pre) in
  Forall (λ c : D * (nat * nat),
      (dist_summarize (Mat (slice_cols rows c.2.1 c.2.2)) w c.1).1 = Val ())
    (zip pre (slices pre)) →
  (dist_summarize (Mat (slice_cols rows j (j + dist_d bad))) w bad).1 = Exc e →
  BlockGaussianDistribution.summarize (Mat rows) w self
  = (Exc e,
     BlockGaussianDistribution.mk
       (zip_with (λ distribution (s : nat * nat),
            state_after (dist_summarize (Mat (slice_cols rows s.1 s.2)) w) distribution)
          pre (slices pre)
        ++ state_after (dist_summarize (Mat (slice_cols rows j (j + dist_d bad))) w) bad
        :: post)
       (BlockGaussianDistribution.d self)).
Proof.
  cbv zeta. intros Hpre Hbad.
  unfold BlockGaussianDistribution.summarize, BlockGaussianDistribution.on_distributions.
  run_method.
  cbn [BlockGaussianDistribution.distributions BlockGaussianDistribution.init].
  unfold slices in *.
  by rewrite (summarize_loop_raises rows w pre bad post 0 e).
Qed.

(** A block of two [NormalDistribution2] given rows of one column: the
    first component has summarized the column when the second, left
    without a column, raises. *)
Lemma block_summarize_stops_at_failure_witness :
  @BlockGaussianDistribution.summarize float _
    (NormalDistribution2_Distribution float_norm_exponent)
    (Mat [[1%float]; [2%float]]) None
    (@BlockGaussianDistribution.init float _
       (NormalDistribution2_Distribution float_norm_exponent)
       [NormalDistribution2.init 0%float 1%float; NormalDistribution2.init 5%float 1%float])
  = (Exc ValueError,
     BlockGaussianDistribution.mk
       [NormalDistribution2.mk 0%float 1%float (0%float, 1%float) 1
          [# 2%float; 3%float; 5%float];
        NormalDistribution2.init 5%float 1%float] 2).
Proof.
  exact (@block_summarize_stops_at_failure float _ float_Num
    (NormalDistribution2_Distribution float_norm_exponent)
    (NormalDistribution2_FixedDimension float_norm_exponent)
    [[1%float]; [2%float]] None
    [NormalDistribution2.init 0%float 1%float] (NormalDistribution2.init 5%float 1%float)
    [] ValueError
    ltac:(repeat constructor) eq_refl).
Defined.

(** X11.  A block never looks at the width of [X]: columns beyond its
    [d] are not read.  [log_probability] and [summarize] do on a matrix
    what they do on its first [d] columns, whether that is to return or to
    raise. *)
Theorem block_ignores_columns_beyond_d {A D : Type} `{Num A} `{FixedDimension A D}
    (ds : list D) (rows : list (list A)) (w : option (list A)) :
  let self := BlockGaussianDistribution.init ds in
  let first_d := take (BlockGaussianDistribution.d self) <$> rows in
  BlockGaussianDistribution.log_probability self (Mat rows)
  = BlockGaussianDistribution.log_probability self (Mat first_d)
  ∧ BlockGaussianDistribution.summarize (Mat rows) w self
    = BlockGaussianDistribution.summarize (Mat first_d) w self.
Proof.
  cbv zeta. split.
  - unfold BlockGaussianDistribution.log_probability.
    cbn [BlockGaussianDistribution.distributions BlockGaussianDistribution.init
         BlockGaussianDistribution.d shape0].
    by rewrite log_probability_loop_take, length_fmap by lia.
  - unfold BlockGaussianDistribution.summarize, BlockGaussianDistribution.on_distributions.
    run_method.
    cbn [BlockGaussianDistribution.distributions BlockGaussianDistribution.init
         BlockGaussianDistribution.d].
    by rewrite summarize_loop_take by lia.
Qed.

Lemma block_ignores_columns_beyond_d_witness :
  @BlockGaussianDistribution.summarize float _
    (NormalDistribution2_Distribution float_norm_exponent)
    (Mat [[1%float; 7%float]; [2%float; 8%float]]) None
    (@BlockGaussianDistribution.init float _
       (NormalDistribution2_Distribution float_norm_exponent)
       [NormalDistribution2.init 0%float 1%float])
  = @BlockGaussianDistribution.summarize float _
      (NormalDistribution2_Distribution float_norm_exponent)
      (Mat [[1%float]; [2%float]]) None
      (@BlockGaussianDistribution.init float _
         (NormalDistribution2_Distribution float_norm_exponent)
         [NormalDistribution2.init 0%float 1%float]).
Proof.
  exact (proj2 (@block_ignores_columns_beyond_d float _ float_Num
    (NormalDistribution2_Distribution float_norm_exponent)
    (NormalDistribution2_FixedDimension float_norm_exponent)
    [NormalDistribution2.init 0%float 1%float]
    [[1%float; 7%float]; [2%float; 8%float]] None)).
Defined.

(** X12.  A block with a component wants a matrix: given an array of one
    dimension, [log_probability] and [summarize] raise [IndexError] at the
    first component, and [summarize] has changed nothing.  A block without
    components reads no column: it answers any array with zeros, one per
    row, and its [summarize] returns. *)
Theorem block_wants_a_matrix {A D : Type} `{Num A} `{Distribution A D}
    (ds : list D) (v : list A) (X : ndarray A) (w : option (list A)) :
  ds ≠ [] →
  BlockGaussianDistribution.log_probability (BlockGaussianDistribution.init ds) (Vec v)
  = Exc IndexError
  ∧ BlockGaussianDistribution.summarize (Vec v) w (BlockGaussianDistribution.init ds)
    = (Exc IndexError, BlockGaussianDistribution.init ds)
  ∧ BlockGaussianDistribution.log_probability
      (BlockGaussianDistribution.init (D:=D) []) X
    = Val (Vec (zeros (shape0 X)))
  ∧ BlockGaussianDistribution.summarize X w (BlockGaussianDistribution.init (D:=D) [])
    = (Val (), BlockGaussianDistribution.init []).
Proof.
  intros Hds. destruct ds as [|distribution ds]; [done|]. split_and!; reflexivity.
Qed.

Lemma block_wants_a_matrix_witness :
  @BlockGaussianDistribution.log_probability float _ float_Num
    (NormalDistribution2_Distribution float_norm_exponent)
    (@BlockGaussianDistribution.init float _
       (NormalDistribution2_Distribution float_norm_exponent)
       [NormalDistribution2.init 0%float 1%float])
    (Vec [1%float; 2%float])
  = Exc IndexError.
Proof.
  refine (proj1 (@block_wants_a_matrix float _ float_Num
    (NormalDistribution2_Distribution float_norm_exponent)
    [NormalDistribution2.init 0%float 1%float] [1%float; 2%float]
    (Vec []) None _)).
  discriminate.
Defined.

(** X13.  The class methods [blank] and [from_samples] of a block, given
    that the library's blank component for [n] columns has [d = n]: the
    block built for the widths [ds] has [d = sum(ds)], hands its [k]-th
    component [ds[k]] columns, and keeps this [d] through [from_samples]
    whether the fit returns or raises.  With the default [ds = []],
    [from_samples] returns the block without components whatever the data
    are. *)
Theorem block_from_samples_dimension {A D : Type} `{Num A} `{Distribution A D}
    (blank_component : nat → D) (ds : list nat) (X : ndarray A)
    (weights : option (list A)) :
  (∀ n, dist_d (blank_component n) = n) →
  BlockGaussianDistribution.d (block_blank blank_component ds) = sum_list ds
  ∧ (λ s : nat * nat, s.2 - s.1)
      <$> slices (BlockGaussianDistribution.distributions (block_blank blank_component ds))
    = ds
  ∧ BlockGaussianDistribution.d (block_from_samples blank_component X weights ds).2
    = sum_list ds
  ∧ block_from_samples blank_component X weights []
    = (Val (), BlockGaussianDistribution.mk [] 0).
Proof.
  intros Hblank.
  assert (Hd : dist_d <$> (blank_component <$> ds) = ds).
  { rewrite <- list_fmap_compose. rewrite <- (list_fmap_id ds) at 2.
    apply list_fmap_ext. intros _ n _. apply Hblank. }
  split_and!.
  - unfold block_blank. cbn. by rewrite Hd.
  - unfold block_blank, slices. cbn [BlockGaussianDistribution.distributions
      BlockGaussianDistribution.init].
    generalize 0. induction ds as [|n ds IH]; intros i; [done|].
    cbn [fmap list_fmap slices_from fst snd].
    change (list_fmap _ _ ?f ?l) with (f <$> l).
    rewrite Hblank. f_equal; [lia|]. apply IH.
    rewrite fmap_cons in Hd. by injection Hd.
  - unfold block_from_samples, mbind, M_bind.
    pose proof (block_methods_keep_d X weights num_zero
      (BlockGaussianDistribution.init (blank_component <$> ds))) as [Hsum _].
    unfold state_after in Hsum.
    destruct (BlockGaussianDistribution.summarize X weights _) as [[[]|e] self'];
      cbn [snd] in *.
    + pose proof (block_methods_keep_d X weights num_zero self') as [_ Hfrom].
      unfold state_after in Hfrom. rewrite Hfrom, Hsum. cbn. by rewrite Hd.
    + rewrite Hsum. cbn. by rewrite Hd.
  - reflexivity.
Qed.

Lemma block_from_samples_dimension_witness :
  let blank_component n :=
    NormalDistribution2.mk 0%float 0%float (0%float, 0%float) n
      [# 0%float; 0%float; 0%float] in
  BlockGaussianDistribution.d
    (@block_blank float _ (NormalDistribution2_Distribution float_norm_exponent)
       blank_component [2; 3])
  = 5.
Proof.
  exact (proj1 (@block_from_samples_dimension float _ float_Num
    (NormalDistribution2_Distribution float_norm_exponent)
    (λ n, NormalDistribution2.mk 0%float 0%float (0%float, 0%float) n
            [# 0%float; 0%float; 0%float])
    [2; 3] (Vec []) None (λ n, eq_refl))).
Defined.

(** ** The data set of the parallelism tutorial *)

Lemma take_indices_cons {B : Type} (a : list B) (k : nat) (idx : list nat) :
  take_indices a (k :: idx)
  = match a !! k, take_indices a idx with
    | Some x, Some l => Some (x :: l)
    | _, _ => None
    end.
Proof.
  unfold take_indices. cbn. destruct (a !! k); cbn; [|done].
  by destruct (mapM _ idx).
Qed.

(** Indices within range are all found. *)
Lemma take_indices_in_range {B : Type} (a : list B) (idx : list nat) :
  Forall (λ k, k < length a) idx →
  take_indices a idx = Some (omap (λ k, a !! k) idx).
Proof.
  induction 1 as [|k idx Hk _ IH]; [done|].
  rewrite take_indices_cons, IH.
  destruct (lookup_lt_is_Some_2 a k Hk) as [x Hx].
  cbn. by rewrite Hx.
Qed.

(** The indices [0 .. n - 1] in any order pick the entries of the array in
    that order: each once. *)
Lemma take_indices_Permutation {B : Type} (a : list B) (idx : list nat) :
  idx ≡ₚ seq 0 (length a) →
  ∃ a', take_indices a idx = Some a' ∧ a' ≡ₚ a.
Proof.
  intros Hidx. exists (omap (λ k, a !! k) idx). split.
  - apply take_indices_in_range. rewrite Hidx. apply Forall_seq. lia.
  - rewrite Hidx. by rewrite (omap_seq_lookup (λ k, a !! k) a 0).
Qed.

Section take_indices.
Context {B C : Type}.

(** Two arrays indexed alike stay paired. *)
Lemma take_indices_zip (a : list B) (c : list C) (idx : list nat) a' c' :
  take_indices a idx = Some a' →
  take_indices c idx = Some c' →
  take_indices (zip a c) idx = Some (zip a' c').
Proof.
  revert a' c'. induction idx as [|k idx IH]; intros a' c'.
  - by intros [= <-] [= <-].
  - rewrite !take_indices_cons, lookup_zip_with.
    destruct (a !! k) as [x|]; [|done]. destruct (c !! k) as [y|]; [|done].
    destruct (take_indices a idx) as [la|]; [|done].
    destruct (take_indices c idx) as [lc|]; [|done].
    intros [= <-] [= <-]. cbn. by rewrite (IH la lc).
Qed.

Lemma zip_concat_fmap {I : Type} (f : I → list B) (g : I → list C) (l : list I) :
  (∀ i, length (f i) = length (g i)) →
  zip (concat (f <$> l)) (concat (g <$> l)) = concat ((λ i, zip (f i) (g i)) <$> l).
Proof.
  intros Hfg. induction l as [|i l IH]; [done|].
  rewrite !fmap_cons. cbn [concat]. rewrite zip_with_app by apply Hfg.
  by rewrite IH.
Qed.

Lemma length_concat_fmap {I : Type} (f : I → list B) (n : nat) (l : list I) :
  (∀ i, length (f i) = n) → length (concat (f <$> l)) = n * length l.
Proof.
  intros Hf. induction l as [|i l IH]; [cbn; lia|].
  rewrite fmap_cons. cbn [concat length]. rewrite length_app, IH, Hf. lia.
Qed.

Lemma zip_replicate_r (l : list B) (c : C) :
  zip l (replicate (length l) c) = (λ x, (x, c)) <$> l.
Proof. induction l as [|x l IH]; [done|]. cbn. by rewrite IH. Qed.

End take_indices.

(** X14.  [create_dataset] with a generator that draws arrays of the shape
    it is asked for and a shuffle that permutes: the call returns
    [n_samples * n_classes] rows and as many labels, and the rows with
    their labels are, in some order, the rows drawn for class [i] each with
    the label [i], for every class; so each class has [n_samples] rows and
    no row has lost its label in the shuffle.  With no class there is
    nothing to concatenate and the call raises [ValueError]. *)
Theorem create_dataset_labelled_rows {A : Type} `{Num A} (of_nat : nat → A)
    (random_normal : nat → A → nat → nat → list (list A))
    (shuffle : list nat → list nat) (n_samples n_dim n_classes : nat) (alpha : A) :
  (∀ i loc n d, length (random_normal i loc n d) = n) →
  (∀ l, shuffle l ≡ₚ l) →
  n_classes ≠ 0 →
  create_dataset of_nat random_normal shuffle n_samples n_dim 0 alpha = Exc ValueError
  ∧ ∃ X y,
      create_dataset of_nat random_normal shuffle n_samples n_dim n_classes alpha
      = Val (X, y)
      ∧ length X = n_samples * n_classes
      ∧ length y = n_samples * n_classes
      ∧ zip X y
        ≡ₚ concat ((λ i, (λ row, (row, (num_zero + of_nat i)%num))
                           <$> random_normal i (of_nat i * alpha)%num n_samples n_dim)
                     <$> seq 0 n_classes).
Proof.
  intros Hdraw Hshuffle Hclasses. split; [done|].
  set (X0 := dataset_X of_nat random_normal n_samples n_dim n_classes alpha).
  set (y0 := dataset_y of_nat n_samples n_classes).
  assert (HX0 : length X0 = n_samples * n_classes).
  { unfold X0, dataset_X. rewrite (length_concat_fmap _ n_samples) by (intros; apply Hdraw).
    by rewrite length_seq. }
  assert (Hy0 : length y0 = n_samples * n_classes).
  { unfold y0, dataset_y. rewrite (length_concat_fmap _ n_samples).
    - by rewrite length_seq.
    - intros i. unfold zeros. by rewrite length_fmap, length_replicate. }
  assert (Hidx : shuffle (seq 0 (length X0)) ≡ₚ seq 0 (length X0)) by apply Hshuffle.
  destruct (take_indices_Permutation X0 _ Hidx) as (X & HX & HXperm).
  destruct (take_indices_Permutation y0 (shuffle (seq 0 (length X0)))) as (y & Hy & Hyperm).
  { by rewrite Hy0, <- HX0. }
  exists X, y. split_and!.
  - unfold create_dataset. destruct n_classes as [|n]; [done|].
    fold X0 y0. cbv zeta. by rewrite HX, Hy.
  - by rewrite HXperm.
  - by rewrite Hyperm.
  - pose proof (take_indices_zip X0 y0 _ X y HX Hy) as Hzip.
    destruct (take_indices_Permutation (zip X0 y0) (shuffle (seq 0 (length X0))))
      as (p & Hp & Hpperm).
    { rewrite length_zip_with, Hy0, <- HX0, Nat.min_id. exact Hidx. }
    rewrite Hp in Hzip. injection Hzip as ->. rewrite Hpperm.
    unfold X0, y0, dataset_X, dataset_y.
    rewrite zip_concat_fmap.
    + match goal with |- ?l1 ≡ₚ ?l2 => replace l1 with l2; [done|] end.
      f_equal. apply list_fmap_ext.
      intros _ i _. unfold zeros. rewrite fmap_replicate.
      rewrite <- (Hdraw i (of_nat i * alpha)%num n_samples n_dim) at 3.
      symmetry. apply zip_replicate_r.
    + intros i. unfold zeros. by rewrite Hdraw, length_fmap, length_replicate.
Qed.

(** Two classes of two rows each, a generator that draws every entry at
    the centre, a shuffle that reverses. *)
Lemma create_dataset_labelled_rows_witness :
  let random_normal (_ : nat) (loc : R) n d := replicate n (replicate d loc) in
  ∃ X y,
    create_dataset INR random_normal reverse 2 1 2 1%R = Val (X, y)
    ∧ length X = 2 * 2
    ∧ length y = 2 * 2
    ∧ zip X y
      ≡ₚ concat ((λ i, (λ row, (row, (0 + INR i)%R))
                         <$> random_normal i (INR i * 1)%R 2 1)
                   <$> seq 0 2).
Proof.
  exact (proj2 (create_dataset_labelled_rows INR
    (λ _ loc n d, replicate n (replicate d loc)) reverse 2 1 2 1%R
    (λ _ _ n d, length_replicate n _) reverse_Permutation ltac:(lia))).
Defined.

(** ** A block of [NormalDistribution2] summarizes batch after batch *)

Lemma slice_cols_app {A : Type} (rows1 rows2 : list (list A)) (i j : nat) :
  slice_cols (rows1 ++ rows2) i j = slice_cols rows1 i j ++ slice_cols rows2 i j.
Proof. unfold slice_cols. apply fmap_app. Qed.

Lemma length_slice_cols {A : Type} (rows : list (list A)) (i j : nat) :
  length (slice_cols rows i j) = length rows.
Proof. unfold slice_cols. apply length_fmap. Qed.

(** One column of a matrix that is wide enough reshapes to a vector. *)
Lemma reshape_one_column {A : Type} `{Num A} (rows : list (list A)) (i : nat) :
  Forall (λ row, i < length row) rows →
  reshape_shape0 (Mat (slice_cols rows i (i + 1)))
  = Some (concat (slice_cols rows i (i + 1))).
Proof.
  intros Hrows. cbn [reshape_shape0].
  assert (Hall : forallb (λ row : list A, length row =? 1) (slice_cols rows i (i + 1))
                 = true).
  { induction Hrows as [|row rows Hrow _ IH]; [done|].
    cbn [slice_cols fmap list_fmap forallb]. apply andb_true_intro. split; [|exact IH].
    apply Nat.eqb_eq. rewrite length_take, length_drop. lia. }
  by rewrite Hall.
Qed.

Section block_of_normal2.
Context {A : Type} `{NumLaws A}.
Variable norm_logpdf : A → A → A → A.
Import NormalDistribution2.

#[local] Abbreviation component := (NormalDistribution2_Distribution norm_logpdf).
#[local] Abbreviation body := (@BlockGaussianDistribution.summarize_body A _ component).

(** The weights a call works with. *)
#[local] Abbreviation weights_of n w := (default (ones n) w).

Lemma normal2_summarize_column (rows : list (list A)) (w : option (list A))
    (i : nat) (c : t) :
  d c = 1 →
  Forall (λ row, i < length row) rows →
  length (weights_of (length rows) w) = length rows →
  body (Mat rows) w i c
  = (Val (i + 1),
     set_summaries
       (vzip_with num_add (summaries c)
          (sufficient_statistics
             (zip (concat (slice_cols rows i (i + 1))) (weights_of (length rows) w))))
       c).
Proof.
  intros Hd Hrows Hw.
  pose proof (reshape_one_column rows i Hrows) as Hreshape.
  assert (Hsum : summarize (Mat (slice_cols rows i (i + 1))) w c
    = (Val (),
       set_summaries
         (vzip_with num_add (summaries c)
            (sufficient_statistics
               (zip (concat (slice_cols rows i (i + 1))) (weights_of (length rows) w))))
         c)).
  { rewrite (summarize_returns _ _ w c Hreshape);
      cbn [shape0]; rewrite length_slice_cols; [done|].
    rewrite (reshape_length _ _ Hreshape). cbn [shape0].
    by rewrite length_slice_cols, Hw. }
  rewrite (@summarize_body_returns A _ component
             (NormalDistribution2_FixedDimension norm_logpdf) rows w c i);
    cbn [dist_d component]; rewrite Hd.
  - unfold state_after. cbn [dist_summarize component]. by rewrite Hsum.
  - cbn [dist_summarize component]. by rewrite Hsum.
Qed.

(** The loops of two calls in a row and of one call on both batches. *)
Lemma block_of_normal2_loops (rows1 rows2 : list (list A))
    (w1 w2 w12 : option (list A)) (ds : list t) (i : nat) :
  Forall (λ c, d c = 1) ds →
  Forall (λ row, i + length ds ≤ length row) (rows1 ++ rows2) →
  length (weights_of (length rows1) w1) = length rows1 →
  length (weights_of (length rows2) w2) = length rows2 →
  weights_of (length (rows1 ++ rows2)) w12
  = weights_of (length rows1) w1 ++ weights_of (length rows2) w2 →
  ∃ ds1 ds2,
    for_each (body (Mat rows1) w1) i ds = (Val (i + length ds), ds1)
    ∧ for_each (body (Mat rows2) w2) i ds1 = (Val (i + length ds), ds2)
    ∧ for_each (body (Mat (rows1 ++ rows2)) w12) i ds = (Val (i + length ds), ds2).
Proof.
  intros Hds Hrows Hw1 Hw2 Hw12. revert i Hrows.
  induction Hds as [|c ds Hc _ IH]; intros i Hrows.
  - exists [], []. cbn. by rewrite Nat.add_0_r.
  - cbn [length] in Hrows.
    assert (Hi : Forall (λ row : list A, i < length row) (rows1 ++ rows2)).
    { eapply Forall_impl; [exact Hrows|]. cbn. lia. }
    assert (Hi' : Forall (λ row : list A, i + 1 + length ds ≤ length row) (rows1 ++ rows2)).
    { eapply Forall_impl; [exact Hrows|]. cbn. lia. }
    pose proof Hi as Hi12. apply Forall_app in Hi as [Hi1 Hi2].
    destruct (IH (i + 1) Hi') as (ds1 & ds2 & H1 & H2 & H12).
    set (c1 := set_summaries
      (vzip_with num_add (summaries c)
         (sufficient_statistics
            (zip (concat (slice_cols rows1 i (i + 1))) (weights_of (length rows1) w1))))
      c).
    set (z2 := zip (concat (slice_cols rows2 i (i + 1))) (weights_of (length rows2) w2)).
    exists (c1 :: ds1),
      (set_summaries (vzip_with num_add (summaries c1) (sufficient_statistics z2)) c1
       :: ds2).
    replace (i + length (c :: ds)) with (i + 1 + length ds) by (cbn; lia).
    split_and!.
    + cbn [for_each]. rewrite normal2_summarize_column by done.
      fold c1. by rewrite H1.
    + cbn [for_each]. rewrite normal2_summarize_column by done.
      fold z2. by rewrite H2.
    + cbn [for_each]. rewrite normal2_summarize_column; [|done|done|].
      * rewrite H12. do 2 f_equal. symmetry. unfold c1.
        rewrite add_statistics_twice, <- sufficient_statistics_app.
        do 3 f_equal. unfold z2.
        rewrite Hw12, slice_cols_app, concat_app.
        rewrite zip_with_app; [done|].
        rewrite Hw1.
        rewrite <- (length_slice_cols rows1 i (i + 1)).
        change (length (slice_cols rows1 i (i + 1)))
          with (shape0 (Mat (slice_cols rows1 i (i + 1)))).
        apply reshape_length. by apply reshape_one_column.
      * by rewrite Hw12, !length_app, Hw1, Hw2.
Qed.

Lemma block_of_normal2_summarize_twice (rows1 rows2 : list (list A))
    (w1 w2 w12 : option (list A)) (ds : list t) :
  Forall (λ c, d c = 1) ds →
  Forall (λ row, length ds ≤ length row) (rows1 ++ rows2) →
  length (weights_of (length rows1) w1) = length rows1 →
  length (weights_of (length rows2) w2) = length rows2 →
  weights_of (length (rows1 ++ rows2)) w12
  = weights_of (length rows1) w1 ++ weights_of (length rows2) w2 →
  let self := @BlockGaussianDistribution.init A _ component ds in
  (@BlockGaussianDistribution.summarize A _ component (Mat rows1) w1;;
   @BlockGaussianDistribution.summarize A _ component (Mat rows2) w2) self
  = @BlockGaussianDistribution.summarize A _ component (Mat (rows1 ++ rows2)) w12 self
  ∧ (@BlockGaussianDistribution.summarize A _ component (Mat (rows1 ++ rows2)) w12
       self).1
    = Val ().
Proof.
  intros Hds Hrows Hw1 Hw2 Hw12. cbv zeta.
  destruct (block_of_normal2_loops rows1 rows2 w1 w2 w12 ds 0 Hds Hrows Hw1 Hw2 Hw12)
    as (ds1 & ds2 & H1 & H2 & H12).
  unfold BlockGaussianDistribution.summarize, BlockGaussianDistribution.on_distributions.
  run_method.
  cbn [BlockGaussianDistribution.distributions BlockGaussianDistribution.init].
  rewrite H1. cbn [BlockGaussianDistribution.distributions BlockGaussianDistribution.d].
  by rewrite H2, H12.
Qed.

End block_of_normal2.

(** X15.  A block of [NormalDistribution2] components, one column each,
    accumulates as its components do.  Over numbers whose addition is a
    monoid, on rows that have a column for every component, [summarize]
    on one batch of rows and then on another leaves the block as one
    [summarize] on all the rows does, without weights and with weights
    that fit the batches; and these calls return. *)
Theorem block_of_normal2_summarize_additive {A : Type} `{NumLaws A}
    (norm_logpdf : A → A → A → A) (ds : list NormalDistribution2.t)
    (rows1 rows2 : list (list A)) (w1 w2 : list A) :
  let component := NormalDistribution2_Distribution norm_logpdf in
  let self := @BlockGaussianDistribution.init A _ component ds in
  Forall (λ c, NormalDistribution2.d c = 1) ds →
  Forall (λ row, length ds ≤ length row) (rows1 ++ rows2) →
  length w1 = length rows1 →
  length w2 = length rows2 →
  ((@BlockGaussianDistribution.summarize A _ component (Mat rows1) None;;
    @BlockGaussianDistribution.summarize A _ component (Mat rows2) None) self
   = @BlockGaussianDistribution.summarize A _ component (Mat (rows1 ++ rows2)) None self
   ∧ (@BlockGaussianDistribution.summarize A _ component (Mat (rows1 ++ rows2)) None
        self).1
     = Val ())
  ∧ ((@BlockGaussianDistribution.summarize A _ component (Mat rows1) (Some w1);;
      @BlockGaussianDistribution.summarize A _ component (Mat rows2) (Some w2)) self
     = @BlockGaussianDistribution.summarize A _ component (Mat (rows1 ++ rows2))
         (Some (w1 ++ w2)) self
     ∧ (@BlockGaussianDistribution.summarize A _ component (Mat (rows1 ++ rows2))
          (Some (w1 ++ w2)) self).1
       = Val ()).
Proof.
  cbv zeta. intros Hds Hrows Hw1 Hw2. split.
  - apply block_of_normal2_summarize_twice; try done; cbn;
      unfold ones; rewrite ?length_replicate; try done.
    by rewrite length_app, replicate_add.
  - by apply block_of_normal2_summarize_twice.
Qed.

Lemma block_of_normal2_summarize_additive_witness :
  let component := NormalDistribution2_Distribution R_norm_logpdf in
  let self :=
    @BlockGaussianDistribution.init R _ component
      [NormalDistribution2.init 0%R 1%R; NormalDistribution2.init 5%R 1%R] in
  (@BlockGaussianDistribution.summarize R _ component (Mat [[1%R; 2%R]]) None;;
   @BlockGaussianDistribution.summarize R _ component (Mat [[3%R; 4%R]]) None) self
  = @BlockGaussianDistribution.summarize R _ component
      (Mat [[1%R; 2%R]; [3%R; 4%R]]) None self.
Proof.
  refine (proj1 (proj1 (block_of_normal2_summarize_additive R_norm_logpdf
    [NormalDistribution2.init 0%R 1%R; NormalDistribution2.init 5%R 1%R]
    [[1%R; 2%R]] [[3%R; 4%R]] [1%R] [1%R] _ _ _ _))).
  - repeat constructor.
  - repeat constructor.
  - reflexivity.
  - reflexivity.
Defined.

(** ** Blocks of blocks *)

Lemma for_each_app {S I : Type} (body : I → M S I) (i : I) (l1 l2 : list S) :
  for_each body i (l1 ++ l2)
  = match for_each body i l1 with
    | (Val i', l1') => let '(r, l2') := for_each body i' l2 in (r, l1' ++ l2')
    | (Exc e, l1') => (Exc e, l1' ++ l2)
    end.
Proof.
  revert i. induction l1 as [|x l1 IH]; intros i.
  - cbn. by destruct (for_each body i l2).
  - cbn [app for_each]. destruct (body i x) as [[i'|e] x']; [|done].
    rewrite IH. destruct (for_each body i' l1) as [[i''|e] l1']; [|done].
    by destruct (for_each body i'' l2).
Qed.

Lemma slice_cols_slice_cols {A : Type} (rows : list (list A)) (i n j k : nat) :
  j ≤ k → k ≤ n →
  slice_cols (slice_cols rows i (i + n)) j k = slice_cols rows (i + j) (i + k).
Proof.
  intros Hjk Hkn. unfold slice_cols. rewrite <- list_fmap_compose.
  apply list_fmap_ext. intros _ row _. cbn.
  replace (i + n - i) with n by lia. replace (i + k - (i + j)) with (k - j) by lia.
  rewrite (take_drop_commute (take n (drop i row))), take_take.
  replace (min (j + (k - j)) n) with (j + (k - j)) by lia.
  by rewrite <- take_drop_commute, drop_drop.
Qed.

Section nested_blocks.
Context {A D : Type} `{Num A} `{FixedDimension A D}.
Import BlockGaussianDistribution.

(** A loop of [summarize] that returns has reached the end of its last
    component's columns. *)
Lemma summarize_loop_next (X : ndarray A) (w : option (list A)) (ds ds' : list D)
    (i r : nat) :
  for_each (summarize_body X w) i ds = (Val r, ds') →
  r = i + sum_list (dist_d <$> ds).
Proof.
  revert i r ds'. induction ds as [|distribution ds IH]; intros i r ds'.
  - cbn. intros [= <- _]. lia.
  - cbn [for_each]. rewrite fmap_cons, sum_list_cons.
    destruct (summarize_body X w i distribution) as [[i'|e] x'] eqn:Hbody; [|done].
    apply summarize_body_next in Hbody as ->.
    destruct (for_each _ _ ds) as [[r'|e] ds''] eqn:Hrest; [|done].
    apply IH in Hrest as ->. intros [= <- _]. lia.
Qed.

(** The loop run on the columns [i .. i + n) of a matrix is the loop run on
    the matrix from column [i], as far as its components stay within these
    columns. *)
Lemma summarize_body_slice (rows : list (list A)) (w : option (list A))
    (distribution : D) (i n j : nat) :
  j + dist_d distribution ≤ n →
  summarize_body (Mat rows) w (i + j) distribution
  = match summarize_body (Mat (slice_cols rows i (i + n))) w j distribution with
    | (Val r, distribution') => (Val (i + r), distribution')
    | (Exc e, distribution') => (Exc e, distribution')
    end.
Proof.
  intros Hn. unfold summarize_body. cbn [columns]. run_method.
  rewrite slice_cols_slice_cols by lia. rewrite Nat.add_assoc.
  destruct (dist_summarize _ w distribution) as [[[]|e] distribution']; [|done].
  f_equal. f_equal. lia.
Qed.

Lemma summarize_loop_slice (rows : list (list A)) (w : option (list A))
    (ds : list D) (i n j : nat) :
  j + sum_list (dist_d <$> ds) ≤ n →
  for_each (summarize_body (Mat rows) w) (i + j) ds
  = match for_each (summarize_body (Mat (slice_cols rows i (i + n))) w) j ds with
    | (Val r, ds') => (Val (i + r), ds')
    | (Exc e, ds') => (Exc e, ds')
    end.
Proof.
  revert j. induction ds as [|distribution ds IH]; intros j Hn; [done|].
  rewrite fmap_cons, sum_list_cons in Hn.
  cbn [for_each]. rewrite (summarize_body_slice rows w distribution i n j) by lia.
  destruct (summarize_body (Mat (slice_cols rows i (i + n))) w j distribution)
    as [[r|e] x'] eqn:Hbody; [|done].
  apply summarize_body_next in Hbody as ->.
  rewrite IH by lia.
  by destruct (for_each _ (j + dist_d distribution) ds) as [[r|e] ds'].
Qed.

(** The body of the loop of [summarize] on a component that is a block. *)
Lemma nested_summarize_body (rows : list (list A)) (w : option (list A))
    (ds : list D) (i : nat) :
  let n := sum_list (dist_d <$> ds) in
  summarize_body (D:=BlockGaussianDistribution.t) (Mat rows) w i (init ds)
  = match for_each (summarize_body (Mat (slice_cols rows i (i + n))) w) 0 ds with
    | (Val _, ds') => (Val (i + n), mk ds' n)
    | (Exc e, ds') => (Exc e, mk ds' n)
    end.
Proof.
  cbv zeta. unfold summarize_body at 1. run_method.
  cbn [dist_d dist_summarize BlockGaussianDistribution_Distribution d init columns].
  unfold summarize, on_distributions. run_method.
  change (distributions (init ds)) with ds.
  change (d (init ds)) with (sum_list (dist_d <$> ds)).
  by destruct (for_each _ 0 ds) as [[r|e] ds'].
Qed.

(** The loop over blocks and the loop over their components, from the same
    column. *)
Lemma nested_summarize_loop (rows : list (list A)) (w : option (list A))
    (bs : list (list D)) (i : nat) :
  let nested :=
    for_each (summarize_body (D:=BlockGaussianDistribution.t) (Mat rows) w) i
      (init <$> bs) in
  let flat := for_each (summarize_body (D:=D) (Mat rows) w) i (concat bs) in
  nested.1 = flat.1 ∧ concat (distributions <$> nested.2) = flat.2.
Proof.
  cbv zeta. revert i. induction bs as [|ds bs IH]; intros i; [done|].
  rewrite fmap_cons. cbn [concat for_each]. rewrite for_each_app.
  pose proof (summarize_loop_slice rows w ds i (sum_list (dist_d <$> ds)) 0) as Hslice.
  rewrite Nat.add_0_r in Hslice. rewrite Hslice by lia. clear Hslice.
  rewrite nested_summarize_body.
  destruct (for_each (summarize_body (Mat (slice_cols rows i _)) w) 0 ds)
    as [[r|e] ds'] eqn:Hinner.
  - apply summarize_loop_next in Hinner as ->.
    rewrite Nat.add_0_l.
    specialize (IH (i + sum_list (dist_d <$> ds))).
    destruct (for_each (summarize_body (Mat rows) w) _ (init <$> bs)) as [ro bs'].
    destruct (for_each (summarize_body (Mat rows) w) _ (concat bs)) as [rf ds''].
    cbn [fst snd] in *. destruct IH as [-> <-]. by rewrite fmap_cons.
  - cbn [fst snd]. split; [done|]. rewrite fmap_cons. cbn [distributions concat].
    f_equal. clear. induction bs as [|ds bs IH]; [done|].
    rewrite !fmap_cons. cbn [concat distributions init]. by rewrite IH.
Qed.

Lemma nested_from_summaries_body (inertia : A) (ds : list D) :
  dist_from_summaries (D:=BlockGaussianDistribution.t) inertia (init ds)
  = (let '(r, ds') := for_each (λ _ : (), dist_from_summaries inertia) () ds in
     (r, mk ds' (sum_list (dist_d <$> ds)))).
Proof. reflexivity. Qed.

Lemma nested_from_summaries_loop (inertia : A) (bs : list (list D)) :
  let nested :=
    for_each (λ _ : (), dist_from_summaries (D:=BlockGaussianDistribution.t) inertia) ()
      (init <$> bs) in
  let flat := for_each (λ _ : (), dist_from_summaries (D:=D) inertia) () (concat bs) in
  nested.1 = flat.1 ∧ concat (distributions <$> nested.2) = flat.2.
Proof.
  cbv zeta. induction bs as [|ds bs IH]; [done|].
  rewrite fmap_cons. cbn [concat for_each]. rewrite for_each_app.
  rewrite nested_from_summaries_body.
  destruct (for_each (λ _ : (), dist_from_summaries inertia) () ds) as [[[]|e] ds'].
  - destruct (for_each _ () (init <$> bs)) as [ro bs'].
    destruct (for_each _ () (concat bs)) as [rf ds''].
    cbn [fst snd] in *. destruct IH as [-> <-]. by rewrite fmap_cons.
  - cbn [fst snd]. split; [done|]. rewrite fmap_cons. cbn [distributions concat].
    f_equal. clear. induction bs as [|ds bs IH]; [done|].
    rewrite !fmap_cons. cbn [concat distributions init]. by rewrite IH.
Qed.

End nested_blocks.

(** X16.  A block can be a component of a block, and then nothing is
    gained or lost: the block of the blocks [bs] has the [d] of the block
    of all their components, and [summarize] and [from_summaries] on it
    end as they do on that block and leave the components, read block
    after block, as they are left there. *)
Theorem nested_blocks_fit_as_flat {A D : Type} `{Num A} `{FixedDimension A D}
    (bs : list (list D)) (rows : list (list A)) (w : option (list A)) (inertia : A) :
  let nested :=
    BlockGaussianDistribution.init (D:=BlockGaussianDistribution.t)
      (BlockGaussianDistribution.init <$> bs) in
  let flat := BlockGaussianDistribution.init (concat bs) in
  let components (self : @BlockGaussianDistribution.t (@BlockGaussianDistribution.t D)) :=
    concat (BlockGaussianDistribution.distributions
              <$> BlockGaussianDistribution.distributions self) in
  BlockGaussianDistribution.d nested = BlockGaussianDistribution.d flat
  ∧ (BlockGaussianDistribution.summarize (Mat rows) w nested).1
    = (BlockGaussianDistribution.summarize (Mat rows) w flat).1
  ∧ components (state_after (BlockGaussianDistribution.summarize (Mat rows) w) nested)
    = BlockGaussianDistribution.distributions
        (state_after (BlockGaussianDistribution.summarize (Mat rows) w) flat)
  ∧ (BlockGaussianDistribution.from_summaries inertia nested).1
    = (BlockGaussianDistribution.from_summaries inertia flat).1
  ∧ components (state_after (BlockGaussianDistribution.from_summaries inertia) nested)
    = BlockGaussianDistribution.distributions
        (state_after (BlockGaussianDistribution.from_summaries inertia) flat).
Proof.
  cbv zeta.
  assert (Hd : sum_list (dist_d <$> (BlockGaussianDistribution.init <$> bs))
               = sum_list (dist_d <$> concat bs)).
  { induction bs as [|ds bs IH]; [done|].
    rewrite !fmap_cons, sum_list_cons, IH. cbn [concat].
    by rewrite fmap_app, sum_list_with_app. }
  pose proof (nested_summarize_loop rows w bs 0) as Hsum.
  pose proof (nested_from_summaries_loop inertia bs) as Hfrom.
  cbv zeta in Hsum, Hfrom.
  unfold state_after, BlockGaussianDistribution.summarize,
    BlockGaussianDistribution.from_summaries, BlockGaussianDistribution.on_distributions.
  run_method.
  cbn [BlockGaussianDistribution.distributions BlockGaussianDistribution.init
       BlockGaussianDistribution.d].
  destruct (for_each _ 0 (BlockGaussianDistribution.init <$> bs)) as [[r1|e1] bs1],
    (for_each _ 0 (concat bs)) as [[r2|e2] ds2],
    (for_each _ () (BlockGaussianDistribution.init <$> bs)) as [[r3|e3] bs3],
    (for_each _ () (concat bs)) as [[r4|e4] ds4];
    cbn [fst snd BlockGaussianDistribution.distributions] in *;
    destruct Hsum as [Hs1 Hs2], Hfrom as [Hf1 Hf2]; try done;
    split_and!; congruence.
Qed.

Lemma nested_blocks_fit_as_flat_witness :
  let component := NormalDistribution2_Distribution float_norm_exponent in
  let a := NormalDistribution2.init 0%float 1%float in
  let b := NormalDistribution2.init 5%float 1%float in
  let rows := [[1%float; 2%float]; [3%float; 4%float]] in
  (@BlockGaussianDistribution.summarize float _
     (@BlockGaussianDistribution_Distribution float _ float_Num component)
     (Mat rows) None
     (@BlockGaussianDistribution.init float _
        (@BlockGaussianDistribution_Distribution float _ float_Num component)
        [@BlockGaussianDistribution.init float _ component [a];
         @BlockGaussianDistribution.init float _ component [b]])).1
  = (@BlockGaussianDistribution.summarize float _ component (Mat rows) None
       (@BlockGaussianDistribution.init float _ component [a; b])).1.
Proof.
  exact (proj1 (proj2 (@nested_blocks_fit_as_flat float _ float_Num
    (NormalDistribution2_Distribution float_norm_exponent)
    (NormalDistribution2_FixedDimension float_norm_exponent)
    [[NormalDistribution2.init 0%float 1%float];
     [NormalDistribution2.init 5%float 1%float]]
    [[1%float; 2%float]; [3%float; 4%float]] None 0%float))).
Defined.

(** X17.  A block cannot add up the answers of [NormalDistribution2] or
    [StudentTDistribution] components: their [log_probability] answers a
    block of columns with an array of the same shape, which numpy does not
    add in place into the vector of zeros.  Whatever the components, as
    soon as there is one, and whatever the rows, [log_probability] of the
    block raises [ValueError]. *)
Theorem block_of_normal2_log_probability_raises_always {A : Type} `{Num A}
    (norm_logpdf : A → A → A → A) (t_logpdf : A → A → A → A → A)
    (normals : list NormalDistribution2.t) (students : list StudentTDistribution.t)
    (rows : list (list A)) :
  normals ≠ [] →
  students ≠ [] →
  @BlockGaussianDistribution.log_probability A _ _
    (NormalDistribution2_Distribution norm_logpdf)
    (@BlockGaussianDistribution.init A _
       (NormalDistribution2_Distribution norm_logpdf) normals)
    (Mat rows)
  = Exc ValueError
  ∧ @BlockGaussianDistribution.log_probability A _ _
      (StudentTDistribution_Distribution t_logpdf)
      (@BlockGaussianDistribution.init A _
         (StudentTDistribution_Distribution t_logpdf) students)
      (Mat rows)
    = Exc ValueError.
Proof.
  intros Hn Hs. destruct normals as [|normal normals]; [done|].
  destruct students as [|student students]; [done|].
  split; reflexivity.
Qed.

Lemma block_of_normal2_log_probability_raises_always_witness :
  @BlockGaussianDistribution.log_probability float _ _
    (NormalDistribution2_Distribution float_norm_exponent)
    (@BlockGaussianDistribution.init float _
       (NormalDistribution2_Distribution float_norm_exponent)
       [NormalDistribution2.init 0%float 1%float])
    (Mat [[1%float]])
  = Exc ValueError.
Proof.
  refine (proj1 (block_of_normal2_log_probability_raises_always
    float_norm_exponent (λ x _ loc scale, float_norm_exponent x loc scale)
    [NormalDistribution2.init 0%float 1%float]
    [StudentTDistribution.init 0%float 1%float 1%float] [[1%float]] _ _));
    discriminate.
Defined.
